(** * Leads-management dashboard: sheet sync, CSV import and table view

    A shallow embedding of the logic of
      - [src/services/api.ts]      (sheet sync, store reads, CSV persistence),
      - [src/pages/Dashboard.tsx]  (initial load, CSV parsing, KPIs, per-lead
                                    handlers, rendering gate),
      - [src/components/dashboard/LeadsTable.tsx] (filtering and pagination),
    together with the properties the specification states about them.

    JavaScript strings are modelled by [string]; template literals are
    concatenations ([+:+]); [===] on strings is equality of strings.
    Case folding is modelled on the ASCII letters. *)

From Stdlib Require Import String Ascii ZArith QArith Qround Lia DecimalString DecimalN.
From stdpp Require Import gmap strings list.

Open Scope string_scope.

(** ** JavaScript string primitives used by the sources *)

Module JsString.

(** [c] occurs somewhere in [s]. *)
Fixpoint occurs (c : ascii) (s : string) : Prop :=
  match s with
  | EmptyString => False
  | String d s' => c = d ∨ occurs c s'
  end.

(** [s.startsWith(t)] *)
Fixpoint startsWith (s t : string) : bool :=
  match t, s with
  | EmptyString, _ => true
  | String _ _, EmptyString => false
  | String c t', String d s' => Ascii.eqb c d && startsWith s' t'
  end.

(** [s.includes(t)]: some suffix of [s] starts with [t]. *)
Fixpoint includes (s t : string) : bool :=
  startsWith s t ||
  match s with
  | EmptyString => false
  | String _ s' => includes s' t
  end.

(** [t] is a contiguous part of [s]. *)
Definition substring_of (t s : string) : Prop :=
  ∃ pre post, s = pre +:+ t +:+ post.

Definition lower_ascii (c : ascii) : ascii :=
  let n := nat_of_ascii c in
  if (65 <=? n)%nat && (n <=? 90)%nat then ascii_of_nat (n + 32) else c.

(** [s.toLowerCase()] on ASCII text. *)
Fixpoint toLowerCase (s : string) : string :=
  match s with
  | EmptyString => EmptyString
  | String c s' => String (lower_ascii c) (toLowerCase s')
  end.

(** [`${n}`] for a non-negative integer [n]: its decimal digits. *)
Definition of_N (n : N) : string := NilEmpty.string_of_uint (N.to_uint n).

(** [`${z}`] for an integer [z]. *)
Definition of_Z (z : Z) : string :=
  match z with
  | Z0 => "0"
  | Zpos p => of_N (Npos p)
  | Zneg p => "-" +:+ of_N (Npos p)
  end.

Definition is_digit (c : ascii) : bool :=
  let n := nat_of_ascii c in (48 <=? n)%nat && (n <=? 57)%nat.

(** [s.replace(/[^\d]/g, '')]: keep the decimal digits only. *)
Fixpoint digits_only (s : string) : string :=
  match s with
  | EmptyString => EmptyString
  | String c s' =>
      if is_digit c then String c (digits_only s') else digits_only s'
  end.

Fixpoint string_drop (n : nat) (s : string) : string :=
  match n, s with
  | O, _ => s
  | S _, EmptyString => EmptyString
  | S n', String _ s' => string_drop n' s'
  end.

(** [s.slice(-k)] for a positive [k]: the last [k] characters, or the whole
    string when it is shorter. *)
Definition slice_last (k : nat) (s : string) : string :=
  string_drop (String.length s - k) s.

(** JavaScript truthiness of an optional string: [undefined] and the empty
    string are falsy.  [or_else o d] is [o || d]. *)
Definition or_else (o : option string) (d : string) : string :=
  match o with
  | Some s => if String.eqb s "" then d else s
  | None => d
  end.

End JsString.

Import JsString.

(** ** Data model *)

(** Modelled from the spec: the [Lead] type of [src/types], which is not among
    the sources.  The six canonical columns are strings; the store identity,
    the customer comment and the follow-up fields are optional. *)
Record Lead := mkLead {
  id : option string;
  created_time : string;
  platform : string;
  name : string;
  whatsapp_number_ : string;
  lead_status : string;
  comments : string;
  customerComment : option string;
  followUpDate : option string;
  followUpTime : option string;
}.

(** [generateLeadHash] of [src/services/api.ts]. *)
Definition generateLeadHash (lead : Lead) : string :=
  whatsapp_number_ lead +:+ "_" +:+ created_time lead.

(** The natural key the specification speaks of. *)
Definition naturalKey (lead : Lead) : string * string :=
  (whatsapp_number_ lead, created_time lead).

(** ** Exceptions and the state-and-exception monad *)

(** What a [throw] or a rejected promise carries.  [AxiosError] is the case
    [axios.isAxiosError(err)], with [err.response?.status]; every [AxiosError]
    is also an instance of [Error]. *)
Inductive Thrown :=
| AxiosError (status : option nat) (message : string)
| JsError (message : string)
| NonError (value : string).

(** Computations over a state [St] that return an [A] or throw; an [await]
    of a promise is the bind of this monad. *)
Definition M (St A : Type) : Type := St → (Thrown + A) * St.

Definition ret {St A} (a : A) : M St A := λ s, (inr a, s).

Definition throw {St A} (e : Thrown) : M St A := λ s, (inl e, s).

Definition bind {St A B} (m : M St A) (k : A → M St B) : M St B :=
  λ s, match m s with
       | (inl e, s') => (inl e, s')
       | (inr a, s') => k a s'
       end.

(** [try { m } catch (e) { h e }] *)
Definition try_catch {St A} (m : M St A) (h : Thrown → M St A) : M St A :=
  λ s, match m s with
       | (inl e, s') => h e s'
       | (inr a, s') => (inr a, s')
       end.

(** [try { m } finally { f }], for an [f] that does not throw. *)
Definition try_finally {St A} (m : M St A) (f : St → St) : M St A :=
  λ s, let '(r, s') := m s in (r, f s').

(** A promise that has settled, kept as a value instead of being awaited. *)
Definition settle {St A} (m : M St A) : M St (Thrown + A) :=
  λ s, let '(r, s') := m s in (inr r, s').

(** [await Promise.all(ps)] on settled promises: the first rejection in list
    order, else the list of results. *)
Fixpoint Promise_all {St A} (ps : list (Thrown + A)) : M St (list A) :=
  match ps with
  | [] => ret []
  | inl e :: _ => throw e
  | inr a :: ps' => bind (Promise_all ps') (λ r, ret (a :: r))
  end.

Notation "'do' x <- m ; k" := (bind m (λ x, k))
  (at level 10, x name, m at level 100, k at level 200).
Notation "m ;; k" := (bind m (λ _, k))
  (at level 100, k at level 200, right associativity).

(** [xs.map(f)] for a callback [f] with effects, left to right. *)
Fixpoint mapM {St A B} (f : A → M St B) (xs : list A) : M St (list B) :=
  match xs with
  | [] => ret []
  | x :: xs' => do y <- f x; do ys <- mapM f xs'; ret (y :: ys)
  end.

(** ** The world outside the page: session, document store, feed *)

Record User := mkUser { phoneNumber : option string }.

(** A lead document of a leads collection: its store-assigned key and its
    data. *)
Abbreviation LeadDoc := (string * Lead)%type.

Record World := mkWorld {
  currentUser : option User;
  (* crm_users/{phone}: field name to value *)
  crm_users : gmap string (gmap string string);
  (* crm_users/{phone}/leads *)
  leadsCol : gmap string (list LeadDoc);
  (* number of requests sent to the document store so far *)
  requests : nat;
  (* number of document keys generated so far *)
  generated : nat;
}.

(** What the page does not control: the feed behind [axios.get], the faults
    of the document store (the [n]-th request rejects), the keys the store
    generates and the reading of the clock. *)
Record Env := mkEnv {
  axios_get : string → Thrown + list Lead;
  firestore_fault : nat → option Thrown;
  autoId : nat → string;
  now_ISOString : string;
}.

Definition getCurrentUser : M World (option User) :=
  λ w, (inr (currentUser w), w).

(** One request to the document store. *)
Definition firestore_request {A} (env : Env) (run : World → A * World)
  : M World A :=
  λ w,
    let w1 := mkWorld (currentUser w) (crm_users w) (leadsCol w)
                      (S (requests w)) (generated w) in
    match firestore_fault env (requests w) with
    | Some e => (inl e, w1)
    | None => let '(a, w2) := run w1 in (inr a, w2)
    end.

(** [setDoc(doc(db, `crm_users/${key}`), fields, { merge: true })] *)
Definition setDoc_merge (env : Env) (key : string)
  (fields : list (string * string)) : M World unit :=
  firestore_request env (λ w,
    let old := default ∅ (crm_users w !! key) in
    let new := foldr (λ kv d, <[kv.1 := kv.2]> d) old fields in
    (tt, mkWorld (currentUser w) (<[key := new]> (crm_users w)) (leadsCol w)
                 (requests w) (generated w))).

(** [getDocs(col)], as [snapshot.docs]. *)
Definition getDocs (env : Env) (col : string) : M World (list LeadDoc) :=
  firestore_request env (λ w, (default [] (leadsCol w !! col), w)).

(** [addDoc(col, lead)]: a new document under a generated key. *)
Definition addDoc (env : Env) (col : string) (lead : Lead) : M World string :=
  firestore_request env (λ w,
    let key := autoId env (generated w) in
    let docs := default [] (leadsCol w !! col) in
    (key, mkWorld (currentUser w) (crm_users w)
                  (<[col := (docs ++ [(key, lead)])%list]> (leadsCol w))
                  (requests w) (S (generated w)))).

(** Modelled from the spec: [getLeadsCol] of [src/services/firebase], which is
    not among the sources: the leads collection of the signed-in user, keyed by
    the sanitized phone number. *)
Definition getLeadsCol : M World string :=
  do user <- getCurrentUser;
  match user with
  | Some (mkUser (Some phone)) => ret (digits_only phone)
  | _ => throw (JsError "User not authenticated")
  end.

(** ** [src/services/api.ts] *)

Definition BASE_API_URL : string :=
  "https://asia-south1-starzapp.cloudfunctions.net/whatsAppWebHook-2/fetch-individual-client-leads".

Definition API_URL (sheetName : string) : string :=
  BASE_API_URL
  +:+ "?sheetId=1D87OvwIf9Nw9UPHL93CzFyjQGzlO_vDM-jH0IN21jsU&sheetName="
  +:+ sheetName.

(** The leads of the feed that sync keeps: those whose hash is not among the
    hashes of the stored leads. *)
Definition newLeads (firestoreLeads sheetsLeads : list Lead) : list Lead :=
  let existingHashes : gset string :=
    list_to_set (generateLeadHash <$> firestoreLeads) in
  List.filter
    (λ sheetLead,
       negb (bool_decide (generateLeadHash sheetLead ∈ existingHashes)))
    sheetsLeads.

(** [syncLeadsFromSheets]; what it writes to the console is left out. *)
Definition syncLeadsFromSheets (env : Env) : M World unit :=
  try_catch
    (do user <- getCurrentUser;
     match user with
     | Some (mkUser (Some phone)) =>
         if String.eqb phone "" then
           throw (JsError "User not authenticated or phone number missing!!")
         else
           let sanitizedPhone := digits_only phone in
           let sheetName := slice_last 10 sanitizedPhone in
           setDoc_merge env sanitizedPhone
             [("source", "sheet"); ("lastSyncedAt", now_ISOString env)];;
           do sheetsLeads <- (λ w, (axios_get env (API_URL sheetName), w));
           do col <- getLeadsCol;
           do docs <- getDocs env col;
           let firestoreLeads := snd <$> docs in
           do created <-
             mapM (λ lead, do col <- getLeadsCol; settle (addDoc env col lead))
                  (newLeads firestoreLeads sheetsLeads);
           do _ <- Promise_all created;
           ret tt
     | _ => throw (JsError "User not authenticated or phone number missing!!")
     end)
    (λ error, throw error).

(** [fetchLeadsFromFirestore].  In [{ id: doc.id, ...doc.data() }] the spread
    comes last, so an [id] stored in the data overrides the document key. *)
Definition fetchLeadsFromFirestore (env : Env) : M World (list Lead) :=
  try_catch
    (do col <- getLeadsCol;
     do docs <- getDocs env col;
     ret ((λ doc : LeadDoc,
             let data := doc.2 in
             mkLead (match id data with Some i => Some i | None => Some doc.1 end)
                    (created_time data) (platform data) (name data)
                    (whatsapp_number_ data) (lead_status data) (comments data)
                    (customerComment data) (followUpDate data)
                    (followUpTime data)) <$> docs))
    (λ error, throw error).

(** ** [src/pages/Dashboard.tsx] *)

(** The icons of [lucide-react] the cards use. *)
Inductive Icon := UsersIcon | CheckIcon | AwardIcon.

Record KPI := mkKPI {
  title : string;
  value : nat;
  icon : Icon;
  color : string;
}.

(** The [useState] cells of the [Dashboard] component. *)
Record Dashboard := mkDashboard {
  leads : list Lead;
  loading : bool;
  error : string;
  warning : option string;
  kpis : list KPI;
  showPopup : bool;
  importError : string;
}.

(** The state a freshly mounted component starts from. *)
Definition mount : Dashboard := mkDashboard [] true "" None [] false "".

Definition setLeads (v : list Lead) (d : Dashboard) : Dashboard :=
  mkDashboard v (loading d) (error d) (warning d) (kpis d) (showPopup d)
              (importError d).

Definition setLoading (v : bool) (d : Dashboard) : Dashboard :=
  mkDashboard (leads d) v (error d) (warning d) (kpis d) (showPopup d)
              (importError d).

Definition setError (v : string) (d : Dashboard) : Dashboard :=
  mkDashboard (leads d) (loading d) v (warning d) (kpis d) (showPopup d)
              (importError d).

Definition setWarning (v : option string) (d : Dashboard) : Dashboard :=
  mkDashboard (leads d) (loading d) (error d) v (kpis d) (showPopup d)
              (importError d).

Definition setKpis (v : list KPI) (d : Dashboard) : Dashboard :=
  mkDashboard (leads d) (loading d) (error d) (warning d) v (showPopup d)
              (importError d).

(** The three cards [computeKPIs] hands to [setKpis]. *)
Definition kpiCards (list : Datatypes.list Lead) : Datatypes.list KPI :=
  let meetingDone :=
    length (List.filter (λ l, String.eqb (lead_status l) "Meeting Done") list) in
  let dealDone :=
    length (List.filter (λ l, String.eqb (lead_status l) "Deal done") list) in
  [ mkKPI "Total Leads" (length list) UsersIcon "blue";
    mkKPI "Meeting Done" meetingDone CheckIcon "orange";
    mkKPI "Deal Done" dealDone AwardIcon "green" ].

Definition computeKPIs (list : Datatypes.list Lead) (d : Dashboard)
  : Dashboard :=
  setKpis (kpiCards list) d.

(** The value shown on the card with a given title, if there is one. *)
Definition kpiValue (t : string) (cards : list KPI) : option nat :=
  value <$> List.find (λ k, String.eqb (title k) t) cards.

(** [lead.id === leadId] *)
Definition id_is (leadId : string) (lead : Lead) : bool :=
  match id lead with
  | Some i => String.eqb i leadId
  | None => false
  end.

Definition handleFollowUpScheduled (leadId date time : string) (d : Dashboard)
  : Dashboard :=
  setLeads
    ((λ lead,
        if id_is leadId lead then
          mkLead (id lead) (created_time lead) (platform lead) (name lead)
                 (whatsapp_number_ lead) (lead_status lead) (comments lead)
                 (customerComment lead) (Some date) (Some time)
        else lead) <$> leads d)
    d.

Definition handleStatusUpdate (leadId newStatus : string) (d : Dashboard)
  : Dashboard :=
  setLeads
    ((λ lead,
        if id_is leadId lead then
          mkLead (id lead) (created_time lead) (platform lead) (name lead)
                 (whatsapp_number_ lead) newStatus (comments lead)
                 (customerComment lead) (followUpDate lead) (followUpTime lead)
        else lead) <$> leads d)
    d.

Definition handleUpdateCustomerComment (leadId comment : string) (d : Dashboard)
  : Dashboard :=
  setLeads
    ((λ lead,
        if id_is leadId lead then
          mkLead (id lead) (created_time lead) (platform lead) (name lead)
                 (whatsapp_number_ lead) (lead_status lead) (comments lead)
                 (Some comment) (followUpDate lead) (followUpTime lead)
        else lead) <$> leads d)
    d.

(** *** CSV import *)

Module CSVRow.
Record t := mk {
  created_time : option string;
  platform : option string;
  name : option string;
  whatsapp_number_ : option string;
  lead_status : option string;
  comments : option string;
}.
End CSVRow.

(** The part of PapaParse's result that [parseCSV] reads. *)
Record ParseError := mkParseError {
  error_type : string;
  error_code : string;
  error_message : string;
  error_row : option nat;
}.

Record ParseResult := mkParseResult {
  data : list CSVRow.t;
  errors : list ParseError;
}.

(** The clock as the callback of [results.data.map] reads it at each row
    index: [Date.now()] and [new Date().toISOString()]. *)
Record RowClock := mkRowClock {
  Date_now : nat → Z;
  Date_toISOString : nat → string;
}.

Definition rowToLead (clock : RowClock) (index : nat) (row : CSVRow.t) : Lead :=
  mkLead
    (Some ("imported-" +:+ of_Z (Date_now clock index) +:+ "-"
           +:+ of_N (N.of_nat index)))
    (or_else (CSVRow.created_time row) (Date_toISOString clock index))
    (or_else (CSVRow.platform row) "")
    (or_else (CSVRow.name row) "")
    (or_else (CSVRow.whatsapp_number_ row) "")
    (or_else (CSVRow.lead_status row) "New Lead")
    (or_else (CSVRow.comments row) "")
    None None None.

(** [parseCSV]; [Papa_parse] stands for
    [Papa.parse(·, { header: true, skipEmptyLines: true, transformHeader })]
    of the PapaParse library. *)
Definition parseCSV (Papa_parse : string → ParseResult) (clock : RowClock)
  (csvText : string) : Thrown + list Lead :=
  let results := Papa_parse csvText in
  if (0 <? length (errors results))%nat then
    inl (JsError "Invalid CSV format")
  else
    inr (imap (rowToLead clock) (data results)).

(** *** Initial load *)

(** A service call made from the component. *)
Definition call {A} (m : M World A) : M (Dashboard * World) A :=
  λ s, let '(r, w) := m s.2 in (r, (s.1, w)).

(** A state setter of the component. *)
Definition setState (f : Dashboard → Dashboard) : M (Dashboard * World) unit :=
  λ s, (inr tt, (f s.1, s.2)).

(** The [catch] block of [load]. *)
Definition load_catch (err : Thrown) : M (Dashboard * World) unit :=
  match err with
  | AxiosError status message =>
      if bool_decide (status = Some 500%nat) then
        setState (setWarning (Some "No leads available for your account"))
      else
        setState (setError ("Failed to load leads: " +:+ message))
  | JsError message =>
      setState (setError ("Failed to load leads: " +:+ message))
  | NonError _ =>
      setState (setError "Failed to load leads due to an unknown error")
  end.

Definition load (env : Env) : M (Dashboard * World) unit :=
  setState (setLoading true);;
  try_finally
    (try_catch
       (do initial <- call (fetchLeadsFromFirestore env);
        setState (setLeads initial);;
        setState (computeKPIs initial);;
        call (syncLeadsFromSheets env);;
        do updated <- call (fetchLeadsFromFirestore env);
        setState (setLeads updated);;
        setState (computeKPIs updated))
       load_catch)
    (λ s, (setLoading false s.1, s.2)).

(** What the component returns when it renders: the spinner, the yellow
    box titled "Warning" with its line of text, or the dashboard proper. *)
Inductive View :=
| Spinner
| WarningBox (text : option string)
| Main (cards : list KPI) (table : list Lead) (popup : option string).

Definition render (d : Dashboard) : View :=
  if loading d then Spinner
  else if negb (String.eqb (error d) "") then WarningBox (warning d)
  else Main (kpis d) (leads d)
            (if showPopup d then Some (importError d) else None).

(** ** [src/components/dashboard/LeadsTable.tsx] *)

Definition itemsPerPage : Z := 20.

(** The callback of [leads.filter] in [filteredLeads].  The optional chaining
    [?.] of the source is the identity here, the three fields being strings. *)
Definition matchesFilters (searchTerm statusFilter platformFilter : string)
  (lead : Lead) : bool :=
  let matchesSearch :=
    includes (toLowerCase (name lead)) (toLowerCase searchTerm)
    || includes (whatsapp_number_ lead) searchTerm
    || includes (toLowerCase (comments lead)) (toLowerCase searchTerm) in
  let matchesStatus :=
    String.eqb statusFilter "all" || String.eqb (lead_status lead) statusFilter in
  let matchesPlatform :=
    String.eqb platformFilter "all" || String.eqb (platform lead) platformFilter in
  matchesSearch && matchesStatus && matchesPlatform.

(** [filteredLeads] as [filter] returns it.  The [sort] by [created_time]
    that follows in the source reorders this list in place and neither adds
    nor removes a lead; it is not modelled. *)
Definition filteredLeads (leads : list Lead)
  (searchTerm statusFilter platformFilter : string) : list Lead :=
  List.filter (matchesFilters searchTerm statusFilter platformFilter) leads.

(** [Math.ceil(n / itemsPerPage)], the quotient taken in the rationals. *)
Definition totalPages (n : nat) : Z :=
  Qceiling (Qdiv (inject_Z (Z.of_nat n)) (inject_Z itemsPerPage)).

(** [l.slice(start, stop)] with JavaScript's treatment of negative and
    out-of-range bounds. *)
Definition slice {A} (start stop : Z) (l : list A) : list A :=
  let len := Z.of_nat (length l) in
  let k := if (start <? 0)%Z then Z.max (len + start) 0 else Z.min start len in
  let final := if (stop <? 0)%Z then Z.max (len + stop) 0 else Z.min stop len in
  take (Z.to_nat (final - k)) (drop (Z.to_nat k) l).

Definition paginatedLeads (filtered : list Lead) (currentPage : Z) : list Lead :=
  slice ((currentPage - 1) * itemsPerPage) (currentPage * itemsPerPage) filtered.

(** ** More of [src/services/api.ts] *)

(** [importLeadsFromCSV].  [createLead] belongs to [src/services/firebase],
    which is not among the sources; it is taken as it comes, as an
    asynchronous function: it fails by rejecting. *)
Definition importLeadsFromCSV {R} (createLead : Lead → M World R)
  (leads : list Lead) : M World unit :=
  try_catch
    (do batchPromises <- mapM (λ lead, settle (createLead lead)) leads;
     do _ <- Promise_all batchPromises;
     ret tt)
    (λ error, throw (JsError "Failed to save leads to database")).

(** ** More of [src/pages/Dashboard.tsx] *)

Definition setShowPopup (v : bool) (d : Dashboard) : Dashboard :=
  mkDashboard (leads d) (loading d) (error d) (warning d) (kpis d) v
              (importError d).

Definition setImportError (v : string) (d : Dashboard) : Dashboard :=
  mkDashboard (leads d) (loading d) (error d) (warning d) (kpis d)
              (showPopup d) v.

(** A file handed to the import dialog: [FileReader] either loads its text or
    fails. *)
Inductive File := Readable (text : string) | Unreadable.

Definition readFileAsText (file : File) : Thrown + string :=
  match file with
  | Readable text => inr text
  | Unreadable => inl (JsError "File reading failed")
  end.

(** A step that does not touch the state: it returns or throws. *)
Definition settled {St A} (r : Thrown + A) : M St A := λ s, (r, s).

(** The [catch] block of [handleCSVImport]. *)
Definition import_catch (err : Thrown) : M (Dashboard * World) unit :=
  match err with
  | AxiosError _ message | JsError message =>
      setState (setImportError (or_else (Some message) "Failed to import CSV"))
  | NonError _ =>
      setState (setImportError "Failed to import CSV")
  end.

(** [handleCSVImport]; the state is the component with the world, and the
    value of the file input ([e.target.value]). *)
Definition handleCSVImport {R} (Papa_parse : string → ParseResult)
  (clock : RowClock) (createLead : Lead → M World R) (env : Env)
  (files : option (list File)) (s : (Dashboard * World) * string)
  : (Dashboard * World) * string :=
  match files with
  | None | Some [] => s
  | Some (file :: _) =>
      let run :=
        setState (setImportError "");;
        try_catch
          (do text <- settled (readFileAsText file);
           do parsed <- settled (parseCSV Papa_parse clock text);
           call (importLeadsFromCSV createLead parsed);;
           do updatedLeads <- call (fetchLeadsFromFirestore env);
           setState (setLeads updatedLeads);;
           setState (computeKPIs updatedLeads);;
           setState (setShowPopup false))
          import_catch in
      ((run s.1).2, "")
  end.

(** ** More of [src/components/dashboard/LeadsTable.tsx] *)

(** The [useState] cells of the [LeadsTable] component. *)
Module Table.
Record t := mk {
  searchTerm : string;
  statusFilter : string;
  platformFilter : string;
  currentPage : Z;
  isSidePanelOpen : bool;
  selectedLead : option Lead;
  followUpLeadId : option string;
  followUpDate : string;
  followUpTime : string;
  customerComment : string;
  isEditingCustomerComment : bool;
}.
End Table.

(** The state a freshly mounted table starts from. *)
Definition Table_mount : Table.t :=
  Table.mk "" "all" "all" 1 false None None "" "" "" false.

(** [handleFollowUpClick] *)
Definition handleFollowUpClick (leads : list Lead) (leadId : string)
  (t : Table.t) : Table.t :=
  if bool_decide (Table.followUpLeadId t = Some leadId) then
    Table.mk (Table.searchTerm t) (Table.statusFilter t)
             (Table.platformFilter t) (Table.currentPage t)
             (Table.isSidePanelOpen t) (Table.selectedLead t)
             None
             (Table.followUpDate t) (Table.followUpTime t)
             (Table.customerComment t) (Table.isEditingCustomerComment t)
  else
    let lead := List.find (id_is leadId) leads in
    Table.mk (Table.searchTerm t) (Table.statusFilter t)
             (Table.platformFilter t) (Table.currentPage t)
             (Table.isSidePanelOpen t) (Table.selectedLead t)
             (Some leadId)
             (or_else (lead ≫= followUpDate) "")
             (or_else (lead ≫= followUpTime) "")
             (Table.customerComment t) (Table.isEditingCustomerComment t).

(** [Array.from(new Set(xs))]: the distinct values, each at its first
    occurrence. *)
Definition distinct (xs : list string) : list string :=
  foldl (λ seen x, if bool_decide (x ∈ seen) then seen else (seen ++ [x])%list)
        [] xs.

(** The options of the status and platform selects; [filter(Boolean)] drops
    the empty string. *)
Definition statuses (leads : list Lead) : list string :=
  List.filter (λ s, negb (String.eqb s "")) (distinct (lead_status <$> leads)).

Definition platforms (leads : list Lead) : list string :=
  List.filter (λ s, negb (String.eqb s "")) (distinct (platform <$> leads)).

(** The "Next" button and the "Showing .. to .. of .." line of the
    pagination bar. *)
Definition nextPage (pages currentPage : Z) : Z :=
  Z.min pages (currentPage + 1).

Definition showingFrom (currentPage : Z) : Z :=
  (currentPage - 1) * itemsPerPage + 1.

Definition showingTo (currentPage : Z) (filtered : list Lead) : Z :=
  Z.min (currentPage * itemsPerPage) (Z.of_nat (length filtered)).

(** [s] with its first [String.length t] characters removed, when it starts
    with [t]. *)
Fixpoint after (t s : string) : option string :=
  match t, s with
  | EmptyString, _ => Some s
  | String _ _, EmptyString => None
  | String c t', String d s' => if Ascii.eqb c d then after t' s' else None
  end.

(** The longest run of decimal digits at the head of [s]: what [(\d+)] takes. *)
Fixpoint take_digits (s : string) : string :=
  match s with
  | EmptyString => EmptyString
  | String c s' => if is_digit c then String c (take_digits s') else EmptyString
  end.

(** [parseInt(ds, 10)] on a string of decimal digits; the number is kept
    exact, as JavaScript keeps it below 2^53. *)
Definition parseInt (ds : string) : N :=
  match NilEmpty.uint_of_string ds with
  | Some u => N.of_uint u
  | None => 0
  end.

(** [extractScore]: the leftmost place where ["Lead Score: "] is followed by a
    digit, and the number written there. *)
Fixpoint extractScore (comments : string) : option N :=
  let here :=
    match after "Lead Score: " comments with
    | Some rest =>
        let ds := take_digits rest in
        if String.eqb ds "" then None else Some (parseInt ds)
    | None => None
    end in
  match here, comments with
  | Some score, _ => Some score
  | None, EmptyString => None
  | None, String _ comments' => extractScore comments'
  end.

(** The longest run of characters other than a line feed at the head of [s]:
    what [([^\n]+)] takes. *)
Fixpoint take_line (s : string) : string :=
  match s with
  | EmptyString => EmptyString
  | String c s' =>
      if Ascii.eqb c (ascii_of_nat 10) then EmptyString
      else String c (take_line s')
  end.

Definition location_marker : string := "📍 Location: ".

(** [extractLocation]: the leftmost place where the marker is followed by a
    character other than a line feed, and the rest of that line. *)
Fixpoint extractLocation (comments : string) : string :=
  let here :=
    match after location_marker comments with
    | Some rest =>
        let line := take_line rest in
        if String.eqb line "" then None else Some line
    | None => None
    end in
  match here, comments with
  | Some line, _ => line
  | None, EmptyString => "N/A"
  | None, String _ comments' => extractLocation comments'
  end.

(** [getStatusColor] *)
Definition getStatusColor (status : option string) : string :=
  match status with
  | None => "bg-gray-100 text-gray-800"
  | Some status =>
      if String.eqb status "" then "bg-gray-100 text-gray-800"
      else
        let statusLower := toLowerCase status in
        if includes statusLower "meeting done" then "bg-blue-100 text-blue-800"
        else if includes statusLower "deal" then "bg-green-100 text-green-800"
        else "bg-gray-100 text-gray-800"
  end.

(** [parseComments].  The two regular expressions of the source work on emoji
    and on Unicode white space; they are taken as [split], for
    [comments.split(/.../).filter(Boolean)], and [strip], for
    [txt.replace(/^[:\s]+/, "")]. *)
Definition comment_labels : list string :=
  [ "Ad Details"; "Name"; "Number"; "PreSchool Owner"; "Location"; "Fees";
    "Strength"; "Lead Score" ].

Definition parseComments (split : string → list string)
  (strip : string → string) (comments : string) : list (string * string) :=
  imap (λ i txt,
          (or_else (comment_labels !! i) ("Field " +:+ of_N (N.of_nat (i + 1))),
           strip txt))
       (split comments).

(** [parseComments(..).find(item => item.label === label)?.value || "N/A"],
    the text of a detail card of the side panel. *)
Definition detailFromComments (split : string → list string)
  (strip : string → string) (label comments : string) : string :=
  or_else
    (snd <$> List.find (λ item, String.eqb item.1 label)
                       (parseComments split strip comments))
    "N/A".

(** ** Vocabulary of the statements *)

(** The documents of a leads collection, in the order they were created. *)
Definition storedLeads (w : World) (col : string) : list LeadDoc :=
  default [] (leadsCol w !! col).

(** The session belongs to the user with this phone number. *)
Definition signed_in (phone : string) (w : World) : Prop :=
  currentUser w = Some (mkUser (Some phone)).

(** The world after one more lead document was created in [col]. *)
Definition added (env : Env) (col : string) (w : World) (lead : Lead) : World :=
  mkWorld (currentUser w) (crm_users w)
    (<[col := (storedLeads w col ++ [(autoId env (generated w), lead)])%list]>
       (leadsCol w))
    (S (requests w)) (S (generated w)).

(** The world after the marker document of [key] was stamped and the leads
    collection was read once. *)
Definition marked (env : Env) (key : string) (w : World) : World :=
  mkWorld (currentUser w)
    (<[key := <["source" := "sheet"]>
                (<["lastSyncedAt" := now_ISOString env]>
                   (default ∅ (crm_users w !! key)))]> (crm_users w))
    (leadsCol w) (S (S (requests w))) (generated w).

(** A CSV cell that is missing or empty. *)
Definition blank (cell : option string) : Prop :=
  cell = None ∨ cell = Some "".

(** [field] holds the text of [cell], or [fallback] when the cell is blank. *)
Definition defaulted (cell : option string) (fallback field : string) : Prop :=
  (blank cell → field = fallback)
  ∧ (∀ v, cell = Some v → v ≠ "" → field = v).



(** The fields no per-lead handler of the dashboard writes. *)
Definition same_core (a b : Lead) : Prop :=
  id a = id b ∧ created_time a = created_time b ∧ platform a = platform b
  ∧ name a = name b ∧ whatsapp_number_ a = whatsapp_number_ b
  ∧ comments a = comments b.

(** [after] is [before] with a new [lead_status] and nothing else changed. *)
Definition status_set (newStatus : string) (before after : Lead) : Prop :=
  same_core before after
  ∧ lead_status after = newStatus
  ∧ customerComment after = customerComment before
  ∧ followUpDate after = followUpDate before
  ∧ followUpTime after = followUpTime before.

(** [after] is [before] with a new follow-up date and time and nothing else
    changed. *)
Definition followUp_set (date time : string) (before after : Lead) : Prop :=
  same_core before after
  ∧ lead_status after = lead_status before
  ∧ customerComment after = customerComment before
  ∧ followUpDate after = Some date
  ∧ followUpTime after = Some time.

(** [after] is [before] with a new customer comment and nothing else
    changed. *)
Definition customerComment_set (comment : string) (before after : Lead) : Prop :=
  same_core before after
  ∧ lead_status after = lead_status before
  ∧ customerComment after = Some comment
  ∧ followUpDate after = followUpDate before
  ∧ followUpTime after = followUpTime before.

(** A handler maps [before] to [after] position by position: leads with
    another identity are kept, the lead with identity [leadId] is changed as
    [change] says. *)
Definition updates_only (leadId : string) (change : Lead → Lead → Prop)
  (before after : list Lead) : Prop :=
  length after = length before
  ∧ ∀ (i : nat) (lead : Lead), before !! i = Some lead →
      ∃ lead' : Lead,
        after !! i = Some lead'
        ∧ (id lead ≠ Some leadId → lead' = lead)
        ∧ (id lead = Some leadId → change lead lead').

(** No user is signed in, or the user has no phone number. *)
Definition signed_out (w : World) : Prop :=
  match currentUser w with
  | Some (mkUser (Some phone)) => phone = ""
  | _ => True
  end.

(** [w'] has the session of [w], and every leads collection of [w] is the
    beginning of the same collection in [w']. *)
Definition extends (w w' : World) : Prop :=
  currentUser w' = currentUser w
  ∧ ∀ k, storedLeads w k `prefix_of` storedLeads w' k.

(** A computation that only ever extends the leads collections. *)
Definition keeps_leads {A} (m : M World A) : Prop :=
  ∀ w, extends w (m w).2.

(** The world after one more request that wrote nothing. *)
Definition asked (w : World) : World :=
  mkWorld (currentUser w) (crm_users w) (leadsCol w) (S (requests w))
          (generated w).

(** The lead [fetchLeadsFromFirestore] makes of a document. *)
Definition docToLead (doc : LeadDoc) : Lead :=
  mkLead (match id doc.2 with Some i => Some i | None => Some doc.1 end)
         (created_time doc.2) (platform doc.2) (name doc.2)
         (whatsapp_number_ doc.2) (lead_status doc.2) (comments doc.2)
         (customerComment doc.2) (followUpDate doc.2) (followUpTime doc.2).

(** Two leads that agree on everything but, possibly, the identity. *)
Definition same_data (a b : Lead) : Prop :=
  created_time a = created_time b ∧ platform a = platform b
  ∧ name a = name b ∧ whatsapp_number_ a = whatsapp_number_ b
  ∧ lead_status a = lead_status b ∧ comments a = comments b
  ∧ customerComment a = customerComment b
  ∧ followUpDate a = followUpDate b ∧ followUpTime a = followUpTime b.

#[global] Instance Lead_eq_dec : EqDecision Lead.
Proof. solve_decision. Defined.

(** [s] is empty or begins with a character that is not a decimal digit. *)
Definition no_digit_ahead (s : string) : Prop :=
  match s with
  | EmptyString => True
  | String c _ => is_digit c = false
  end.

(** [s] is empty or begins with a line feed. *)
Definition line_ends (s : string) : Prop :=
  match s with
  | EmptyString => True
  | String c _ => c = ascii_of_nat 10
  end.

(** ** Concrete inputs used below *)

Definition lead_number_with_underscore : Lead :=
  mkLead None "3" "" "" "1_2" "" "" None None None.

Definition lead_time_with_underscore : Lead :=
  mkLead None "2_3" "" "" "1" "" "" None None None.

Definition jane : Lead :=
  mkLead None "2024-01-01T00:00:00Z" "fb" "Jane" "919876543210" "New Lead"
         "Interested" None None None.

(** [jane] as the feed sends her again, under another spelling of the name. *)
Definition jane_in_feed : Lead :=
  mkLead None "2024-01-01T00:00:00Z" "fb" "JANE D." "919876543210" "New Lead"
         "Interested" None None None.

Definition bob : Lead :=
  mkLead None "2024-01-02T09:30:00Z" "ig" "Bob" "919812345678" "Meeting Done"
         "Call back" None None None.

(** A lead whose contact identifier is a WhatsApp link. *)
Definition lead_with_link : Lead :=
  mkLead (Some "doc-1") "2024-01-05T10:00:00Z" "wa" "Asha"
         "wa.me/919876543210" "New Lead" "Asked for fees" None None None.

(** A signed-in user whose collection already holds [jane]. *)
Definition demo_phone : string := "+91 98765-43210".

Definition demo_world : World :=
  mkWorld (Some (mkUser (Some demo_phone))) ∅
          {[ "919876543210" := [("doc-1", jane)] ]} 0 0.

Definition demo_autoId (n : nat) : string := "auto-" +:+ of_N (N.of_nat n).

(** The feed repeats [jane] and brings [bob]; the store answers. *)
Definition demo_env : Env :=
  mkEnv (λ _, inr [jane; bob]) (λ _, None) demo_autoId
        "2024-01-03T00:00:00.000Z".

(** The feed answers with status 500; the store answers. *)
Definition env_feed_500 : Env :=
  mkEnv (λ _, inl (AxiosError (Some 500%nat)
                              "Request failed with status code 500"))
        (λ _, None) demo_autoId "2024-01-03T00:00:00.000Z".

(** The store rejects the first request. *)
Definition env_store_denied : Env :=
  mkEnv (λ _, inr [jane; bob])
        (λ n, match n with
              | O => Some (JsError "Missing or insufficient permissions.")
              | S _ => None
              end)
        demo_autoId "2024-01-03T00:00:00.000Z".

Definition newline : string := String (ascii_of_nat 10) "".

(** The import example of the specification: one row, empty status cell. *)
Definition csv_example : string :=
  "created_time,platform,name,whatsapp_number_,lead_status,comments"
  +:+ newline
  +:+ "2024-01-01T00:00:00Z,fb,Jane,919876543210,,Interested".

Definition papa_example (_ : string) : ParseResult :=
  mkParseResult
    [CSVRow.mk (Some "2024-01-01T00:00:00Z") (Some "fb") (Some "Jane")
               (Some "919876543210") (Some "") (Some "Interested")]
    [].

(** A ragged row, as PapaParse reports it. *)
Definition csv_ragged : string :=
  "created_time,platform,name,whatsapp_number_,lead_status,comments"
  +:+ newline +:+ "2024-01-01T00:00:00Z,fb".

Definition papa_ragged (_ : string) : ParseResult :=
  mkParseResult
    [CSVRow.mk (Some "2024-01-01T00:00:00Z") (Some "fb") None None None None]
    [mkParseError "FieldMismatch" "TooFewFields"
                  "Too few fields: expected 6 fields but parsed 2" (Some 0%nat)].

Definition demo_clock : RowClock :=
  mkRowClock (λ _, 1704067200000%Z) (λ _, "2024-01-01T00:00:00.000Z").

(** No lead of the list has an underscore in this field. *)
Definition underscore_free (field : Lead → string) (ls : list Lead) : Prop :=
  ∀ l, l ∈ ls → ¬ occurs "_" (field l).

(** [s.split(c)] for a single character [c]. *)
Fixpoint split_on (c : ascii) (s : string) : list string :=
  match s with
  | EmptyString => [EmptyString]
  | String d s' =>
      if Ascii.eqb c d then EmptyString :: split_on c s'
      else match split_on c s' with
           | x :: xs => String d x :: xs
           | [] => [String d EmptyString]
           end
  end.

(** The lines of a CSV text that are not empty. *)
Definition csv_lines (text : string) : list string :=
  List.filter (λ line, negb (String.eqb line ""))
              (split_on (ascii_of_nat 10) text).

(** The specification's "valid header row and N well-formed data rows", for
    texts without quoted fields: a first line of column names, then [n]
    lines, each with as many comma-separated fields as the header. *)
Definition csv_well_formed (text : string) (n : nat) : Prop :=
  match csv_lines text with
  | [] => False
  | header :: rows =>
      length rows = n
      ∧ Forall (λ row, length (split_on "," row) = length (split_on "," header))
               rows
  end.

(** A store that holds the lead ("1_2", "3") and a feed that brings the lead
    ("1", "2_3"). *)
Definition collision_world : World :=
  mkWorld (Some (mkUser (Some demo_phone))) ∅
          {[ "919876543210" := [("doc-1", lead_number_with_underscore)] ]} 0 0.

Definition collision_env : Env :=
  mkEnv (λ _, inr [lead_time_with_underscore]) (λ _, None) demo_autoId
        "2024-01-03T00:00:00.000Z".

(** A CSV text with one column, and what PapaParse returns for it: both rows,
    and the error it reports whenever it cannot detect the delimiter. *)
Definition csv_single_column : string :=
  "name" +:+ newline +:+ "Jane" +:+ newline +:+ "Bob".

Definition papa_single_column (_ : string) : ParseResult :=
  mkParseResult
    [CSVRow.mk None None (Some "Jane") None None None;
     CSVRow.mk None None (Some "Bob") None None None]
    [mkParseError "Delimiter" "UndetectableDelimiter"
                  "Unable to auto-detect delimiting character; defaulted to ','"
                  None].

(** * Properties *)

(** ** Strings *)

Section StringFacts.

#[local] Arguments String.append !_ _ /.

Implicit Types (s t a b : string) (c : ascii).

Lemma occurs_app_sep c a b : occurs c (a +:+ String c b).
Proof. induction a as [|d a IH]; cbn; auto. Qed.

(** Cutting at the first separator: the parts before it determine the cut. *)
Lemma split_first_sep c a a' b b' :
  ¬ occurs c a → ¬ occurs c a' →
  a +:+ String c b = a' +:+ String c b' → a = a' ∧ b = b'.
Proof.
  revert a'. induction a as [|d a IH]; intros [|d' a'] Ha Ha' E; cbn in *.
  - by injection E as ->.
  - injection E as -> _. tauto.
  - injection E as -> _. tauto.
  - injection E as -> E. destruct (IH a') as [-> ->]; tauto.
Qed.

(** Cutting at the last separator: the parts after it determine the cut. *)
Lemma split_last_sep c a a' b b' :
  ¬ occurs c b → ¬ occurs c b' →
  a +:+ String c b = a' +:+ String c b' → a = a' ∧ b = b'.
Proof.
  revert a'. induction a as [|d a IH]; intros [|d' a'] Hb Hb' E; cbn in *.
  - by injection E as ->.
  - injection E as -> ->. destruct Hb. apply occurs_app_sep.
  - injection E as -> <-. destruct Hb'. apply occurs_app_sep.
  - injection E as -> E. destruct (IH a') as [-> ->]; tauto.
Qed.



Lemma append_assoc a b s : (a +:+ b) +:+ s = a +:+ (b +:+ s).
Proof. induction a as [|c a IH]; cbn; congruence. Qed.

Lemma append_inj_l a s t : a +:+ s = a +:+ t → s = t.
Proof. induction a as [|c a IH]; cbn; [done | intros [= E]; auto]. Qed.

Lemma string_of_uint_digits c (d : Decimal.uint) :
  occurs c (NilEmpty.string_of_uint d) → is_digit c = true.
Proof. induction d; cbn; intros H; try done; destruct H as [->|H]; auto. Qed.

Lemma of_N_digits c n : occurs c (of_N n) → is_digit c = true.
Proof. apply string_of_uint_digits. Qed.

Lemma of_N_inj n m : of_N n = of_N m → n = m.
Proof.
  unfold of_N. intros E.
  assert (Some (N.to_uint n) = Some (N.to_uint m)) as [= E'].
  { by rewrite <- !NilEmpty.usu, E. }
  by rewrite <- (DecimalN.Unsigned.of_to n), E', DecimalN.Unsigned.of_to.
Qed.

Lemma eqb_bool_decide a b : String.eqb a b = bool_decide (a = b).
Proof.
  destruct (String.eqb_spec a b).
  - by rewrite bool_decide_eq_true_2.
  - by rewrite bool_decide_eq_false_2.
Qed.

Lemma or_else_defaulted (cell : option string) (d : string) :
  defaulted cell d (or_else cell d).
Proof.
  unfold defaulted, blank, or_else. split.
  - by intros [-> | ->].
  - intros v -> Hv. by destruct (String.eqb_spec v "").
Qed.

End StringFacts.

(** ** The natural key of sync *)

(** C2, as the specification words it, fails: a separator inside a field
    moves the cut.  The leads ("1_2", "3") and ("1", "2_3") have one hash. *)
Lemma generateLeadHash_collision :
  ¬ (generateLeadHash lead_number_with_underscore
       = generateLeadHash lead_time_with_underscore
     ↔ naturalKey lead_number_with_underscore
       = naturalKey lead_time_with_underscore).
Proof. intros [H _]. by specialize (H eq_refl). Qed.

(** C2 (amended): leads with equal natural keys always have equal hashes;
    leads with equal hashes have equal natural keys whenever neither
    [whatsapp_number_] contains an underscore, and also whenever neither
    [created_time] does. *)
Theorem generateLeadHash_natural_key (a b : Lead) :
  (naturalKey a = naturalKey b → generateLeadHash a = generateLeadHash b)
  ∧ ((¬ occurs "_" (whatsapp_number_ a) ∧ ¬ occurs "_" (whatsapp_number_ b))
     ∨ (¬ occurs "_" (created_time a) ∧ ¬ occurs "_" (created_time b)) →
     generateLeadHash a = generateLeadHash b → naturalKey a = naturalKey b).
Proof.
  unfold generateLeadHash, naturalKey. split.
  - by intros [= -> ->].
  - intros [[Ha Hb] | [Ha Hb]] E.
    + by destruct (split_first_sep _ _ _ _ _ Ha Hb E) as [-> ->].
    + by destruct (split_last_sep _ _ _ _ _ Ha Hb E) as [-> ->].
Qed.

Lemma generateLeadHash_natural_key_witness :
  generateLeadHash jane = generateLeadHash jane_in_feed
  ∧ naturalKey jane = naturalKey jane_in_feed.
Proof.
  split; [reflexivity|].
  apply (proj2 (generateLeadHash_natural_key jane jane_in_feed));
    [|reflexivity].
  left. split; vm_compute; intuition discriminate.
Defined.

(** ** Sheet sync *)

Section SyncFacts.

Variable env : Env.
Hypothesis no_faults : ∀ n, firestore_fault env n = None.

Variable phone : string.
Let col : string := digits_only phone.

Lemma getLeadsCol_signed_in w :
  signed_in phone w → getLeadsCol w = (inr col, w).
Proof. unfold signed_in, getLeadsCol, getCurrentUser, bind. by intros ->. Qed.

Lemma addDoc_ok lead w :
  addDoc env col lead w = (inr (autoId env (generated w)), added env col w lead).
Proof. unfold addDoc, firestore_request. by rewrite no_faults. Qed.

Lemma mapM_addDoc_ok ls w :
  signed_in phone w →
  mapM (λ lead, do c <- getLeadsCol; settle (addDoc env c lead)) ls w
  = (inr (inr <$> (autoId env <$> seq (generated w) (length ls))),
     foldl (added env col) w ls).
Proof.
  revert w. induction ls as [|lead ls IH]; intros w Hw; [done|].
  cbn [mapM]. unfold bind at 1 2. rewrite getLeadsCol_signed_in by done.
  unfold settle. rewrite addDoc_ok. unfold bind at 1.
  rewrite IH by done. done.
Qed.

Lemma Promise_all_ok {St A} (xs : list A) (s : St) :
  Promise_all (inr <$> xs) s = (inr xs, s).
Proof.
  induction xs as [|x xs IH]; [done|]. cbn. unfold bind. by rewrite IH.
Qed.

Lemma foldl_added_stored ls w :
  storedLeads (foldl (added env col) w ls) col
  = (storedLeads w col
     ++ zip (autoId env <$> seq (generated w) (length ls)) ls)%list.
Proof.
  revert w. induction ls as [|lead ls IH]; intros w; cbn [foldl].
  - by rewrite app_nil_r.
  - rewrite IH. unfold storedLeads at 1. cbn [added leadsCol generated].
    rewrite lookup_insert_eq. cbn. by rewrite <- app_assoc.
Qed.

Lemma foldl_added_frame ls w :
  let w' := foldl (added env col) w ls in
  currentUser w' = currentUser w ∧ crm_users w' = crm_users w
  ∧ requests w' = (requests w + length ls)%nat
  ∧ generated w' = (generated w + length ls)%nat
  ∧ ∀ k, k ≠ col → leadsCol w' !! k = leadsCol w !! k.
Proof.
  revert w. induction ls as [|lead ls IH]; intros w; cbn [foldl length].
  - repeat split; auto with lia.
  - destruct (IH (added env col w lead)) as (-> & -> & -> & -> & Hk).
    cbn [added currentUser crm_users requests generated].
    repeat split; try lia.
    intros k Hne. rewrite Hk by done. cbn. by rewrite lookup_insert_ne.
Qed.

(** A run of sync without faults: the marker is stamped, the collection is
    read, and one document is created for each lead that [newLeads] keeps. *)
Lemma syncLeadsFromSheets_ok w feed :
  signed_in phone w → phone ≠ "" →
  axios_get env (API_URL (slice_last 10 col)) = inr feed →
  syncLeadsFromSheets env w
  = (inr tt,
     foldl (added env col) (marked env col w)
           (newLeads (snd <$> storedLeads w col) feed)).
Proof.
  intros Hw Hne Hfeed.
  unfold syncLeadsFromSheets, try_catch, getCurrentUser.
  unfold bind at 1. rewrite Hw.
  destruct (String.eqb_spec phone "") as [|_]; [done|].
  fold col. unfold bind at 1, setDoc_merge, firestore_request at 1.
  rewrite no_faults. unfold bind at 1. cbn [currentUser]. rewrite Hfeed.
  unfold bind at 1. rewrite getLeadsCol_signed_in by done.
  unfold bind at 1, getDocs, firestore_request. rewrite no_faults.
  cbn [requests currentUser crm_users leadsCol generated foldr fst snd].
  unfold bind at 1. fold (storedLeads w col).
  rewrite mapM_addDoc_ok by done.
  unfold bind at 1. rewrite Promise_all_ok. done.
Qed.

End SyncFacts.

(** [Array.prototype.filter] with a boolean callback, as a comprehension. *)
Lemma List_filter_bool_decide {A} (P : A → Prop) `{∀ x, Decision (P x)}
  (f : A → bool) (l : list A) :
  (∀ x, f x = bool_decide (P x)) → List.filter f l = filter P l.
Proof.
  intros Hf. induction l as [|x l IH]; [done|].
  cbn [List.filter]. rewrite Hf, filter_cons, IH.
  case_bool_decide; by case_decide.
Qed.

Lemma filter_none {A} (P : A → Prop) `{∀ x, Decision (P x)} (l : list A) :
  (∀ x, x ∈ l → ¬ P x) → filter P l = [].
Proof.
  intros Hl. destruct (filter P l) as [|x k] eqn:E; [done|].
  assert (x ∈ filter P l) as [Hx Hin]%list_elem_of_filter
    by (rewrite E; left).
  by destruct (Hl x).
Qed.

(** [newLeads] keeps, in feed order, the leads whose hash no stored lead has. *)
Lemma newLeads_spec (stored feed : list Lead) :
  newLeads stored feed
  = filter (λ i, generateLeadHash i ∉ generateLeadHash <$> stored) feed.
Proof.
  apply List_filter_bool_decide. intros i.
  rewrite bool_decide_not. f_equal. apply bool_decide_ext.
  by rewrite elem_of_list_to_set.
Qed.

(** Sync in terms of the key it computes: with the user signed in, the feed
    answering [feed] and the store answering every request, sync succeeds and
    the documents it creates in the user's collection are exactly the feed
    leads whose [generateLeadHash] is not the hash of a stored lead, one new
    document under a newly generated key per such lead; the documents already
    stored are kept as they were, and no other collection changes. *)
Theorem sync_creates_exactly_new_leads
  (env : Env) (phone : string) (w : World) (feed : list Lead) :
  (∀ n, firestore_fault env n = None) →
  signed_in phone w → phone ≠ "" →
  axios_get env (API_URL (slice_last 10 (digits_only phone))) = inr feed →
  ∃ (w' : World) (created : list LeadDoc),
    syncLeadsFromSheets env w = (inr tt, w')
    ∧ storedLeads w' (digits_only phone)
      = (storedLeads w (digits_only phone) ++ created)%list
    ∧ created.*2
      = filter (λ i, generateLeadHash i
                     ∉ generateLeadHash <$> (storedLeads w (digits_only phone)).*2)
               feed
    ∧ created.*1 = autoId env <$> seq (generated w) (length created)
    ∧ generated w' = (generated w + length created)%nat
    ∧ ∀ k, k ≠ digits_only phone → leadsCol w' !! k = leadsCol w !! k.
Proof.
  intros Hok Hw Hne Hfeed.
  set (kept := newLeads (storedLeads w (digits_only phone)).*2 feed).
  set (keys := autoId env <$> seq (generated w) (length kept)).
  assert (length keys = length kept) as Hlen.
  { unfold keys. by rewrite length_fmap, length_seq. }
  exists (foldl (added env (digits_only phone)) (marked env (digits_only phone) w) kept), (zip keys kept).
  assert (length (zip keys kept) = length kept) as Hzip.
  { rewrite length_zip_with. lia. }
  split; [by apply syncLeadsFromSheets_ok|].
  split; [by rewrite foldl_added_stored|].
  split; [rewrite snd_zip by lia; apply newLeads_spec|].
  split; [rewrite fst_zip by lia; by rewrite Hzip|].
  destruct (foldl_added_frame env phone kept (marked env (digits_only phone) w))
    as (_ & _ & _ & Hgen & Hother).
  split; [by rewrite Hzip|done].
Qed.

(** C5: after a successful run of sync, a second run against the same feed
    succeeds and creates nothing: the leads collections and the number of
    documents created so far are what the first run left. *)
Theorem sync_twice_creates_nothing
  (env : Env) (phone : string) (w : World) (feed : list Lead) :
  (∀ n, firestore_fault env n = None) →
  signed_in phone w → phone ≠ "" →
  axios_get env (API_URL (slice_last 10 (digits_only phone))) = inr feed →
  ∃ w1 w2 : World,
    syncLeadsFromSheets env w = (inr tt, w1)
    ∧ syncLeadsFromSheets env w1 = (inr tt, w2)
    ∧ leadsCol w2 = leadsCol w1
    ∧ generated w2 = generated w1.
Proof.
  intros Hok Hw Hne Hfeed.
  set (kept := newLeads (storedLeads w (digits_only phone)).*2 feed).
  set (w1 := foldl (added env (digits_only phone)) (marked env (digits_only phone) w) kept).
  destruct (foldl_added_frame env phone kept (marked env (digits_only phone) w))
    as (Huser & _ & _ & _ & _). fold w1 in Huser.
  assert (signed_in phone w1) as Hw1 by (unfold signed_in; by rewrite Huser).
  assert (newLeads (storedLeads w1 (digits_only phone)).*2 feed = []) as Hnone.
  { unfold w1. rewrite foldl_added_stored, fmap_app.
    rewrite snd_zip by (by rewrite length_fmap, length_seq).
    change (storedLeads (marked env (digits_only phone) w)
              (digits_only phone)) with (storedLeads w (digits_only phone)).
    rewrite newLeads_spec. apply filter_none.
    intros i Hi Hnew. apply Hnew. rewrite fmap_app, elem_of_app.
    destruct (decide (generateLeadHash i
                      ∈ generateLeadHash <$> (storedLeads w (digits_only phone)).*2)) as [|Hout];
      [by left|right].
    apply list_elem_of_fmap_2. unfold kept. rewrite newLeads_spec.
    by apply list_elem_of_filter. }
  exists w1, (marked env (digits_only phone) w1).
  split; [by apply syncLeadsFromSheets_ok|].
  split; [|done].
  rewrite (syncLeadsFromSheets_ok env Hok phone w1 feed) by done.
  by rewrite Hnone.
Qed.

(** ** CSV import *)

Lemma rowToLead_id_inj (clock : RowClock) (i j : nat) (r r' : CSVRow.t) :
  id (rowToLead clock i r) = id (rowToLead clock j r') → i = j.
Proof.
  unfold rowToLead. cbn [id]. intros [= E%append_inj_l].
  change ("-" +:+ ?x) with (String "-" x) in E.
  apply split_last_sep in E as [_ E%of_N_inj]; [lia|..];
    by intros ?%of_N_digits.
Qed.

(** C3 (amended): when PapaParse reports no error of any kind for the text,
    [parseCSV] returns one lead per parsed row, in row order; the temporary
    identities are pairwise distinct; and each of the six columns carries the
    text of its cell, or, for a missing or empty cell, the reading of the
    clock ([created_time]), ["New Lead"] ([lead_status]) or the empty string
    (the other four). *)
Theorem parseCSV_shape_and_defaults
  (Papa_parse : string → ParseResult) (clock : RowClock) (csvText : string) :
  errors (Papa_parse csvText) = [] →
  ∃ parsed : list Lead,
    parseCSV Papa_parse clock csvText = inr parsed
    ∧ length parsed = length (data (Papa_parse csvText))
    ∧ NoDup (id <$> parsed)
    ∧ ∀ (index : nat) (row : CSVRow.t),
        data (Papa_parse csvText) !! index = Some row →
        ∃ lead : Lead,
          parsed !! index = Some lead
          ∧ is_Some (id lead)
          ∧ defaulted (CSVRow.created_time row) (Date_toISOString clock index)
                      (created_time lead)
          ∧ defaulted (CSVRow.platform row) "" (platform lead)
          ∧ defaulted (CSVRow.name row) "" (name lead)
          ∧ defaulted (CSVRow.whatsapp_number_ row) "" (whatsapp_number_ lead)
          ∧ defaulted (CSVRow.lead_status row) "New Lead" (lead_status lead)
          ∧ defaulted (CSVRow.comments row) "" (comments lead).
Proof.
  intros Herr. exists (imap (rowToLead clock) (data (Papa_parse csvText))).
  split; [unfold parseCSV; by rewrite Herr|].
  split; [apply length_imap|].
  split.
  - apply NoDup_alt. intros i j x.
    rewrite !list_lookup_fmap, !list_lookup_imap.
    destruct (data (Papa_parse csvText) !! i) as [r|] eqn:Hi; [|done].
    destruct (data (Papa_parse csvText) !! j) as [r'|] eqn:Hj; [|done].
    cbn -[rowToLead]. intros E1 E2.
    apply (rowToLead_id_inj clock i j r r'). congruence.
  - intros index row Hrow. exists (rowToLead clock index row).
    split; [by rewrite list_lookup_imap, Hrow|].
    split; [by eexists|].
    repeat split; apply or_else_defaulted.
Qed.

(** C4: when PapaParse reports at least one error for the text, [parseCSV]
    throws ["Invalid CSV format"] and returns no list of leads at all. *)
Theorem parseCSV_rejects_whole_file
  (Papa_parse : string → ParseResult) (clock : RowClock) (csvText : string) :
  errors (Papa_parse csvText) ≠ [] →
  parseCSV Papa_parse clock csvText = inl (JsError "Invalid CSV format").
Proof.
  intros Herr. unfold parseCSV.
  by destruct (errors (Papa_parse csvText)).
Qed.

(** ** Leads table: filtering *)



(** ** KPI cards *)

(** C7: the card titled "Total Leads" shows the length of the list, the card
    "Meeting Done" the number of leads whose [lead_status] is the string
    "Meeting Done", and the card "Deal Done" the number of leads whose
    [lead_status] is the string "Deal done". *)
Theorem computeKPIs_counts (list : Datatypes.list Lead) (d : Dashboard) :
  let cards := kpis (computeKPIs list d) in
  kpiValue "Total Leads" cards = Some (length list)
  ∧ kpiValue "Meeting Done" cards
    = Some (length (filter (λ l, lead_status l = "Meeting Done") list))
  ∧ kpiValue "Deal Done" cards
    = Some (length (filter (λ l, lead_status l = "Deal done") list)).
Proof.
  cbn. repeat split; do 2 f_equal; apply List_filter_bool_decide;
    intros l; apply eqb_bool_decide.
Qed.

(** The statuses are compared as typed: "meeting done" and "Deal Done" are
    counted by no card but the total. *)
Lemma computeKPIs_case_sensitive (d : Dashboard) :
  let other l s :=
    mkLead (id l) (created_time l) (platform l) (name l) (whatsapp_number_ l)
           s (comments l) None None None in
  value <$> kpis (computeKPIs [other jane "meeting done"; other bob "Deal Done"] d)
  = [2; 0; 0]%nat.
Proof. reflexivity. Qed.

(** ** Leads table: pagination *)

Section Pagination.

Context {A : Type}.
Implicit Types (l : list A) (n : nat).

Lemma totalPages_eq n : totalPages n = ((Z.of_nat n + 19) `div` 20)%Z.
Proof.
  unfold totalPages, Qceiling, Qfloor, itemsPerPage, Qdiv, Qinv, Qmult, Qopp,
    inject_Z.
  cbn [Qnum Qden]. change (Z.pos (1 * 20)) with 20%Z. rewrite Z.mul_1_r.
  pose proof (Z.div_mod (Z.of_nat n + 19) 20 ltac:(lia)).
  pose proof (Z.mod_pos_bound (Z.of_nat n + 19) 20 ltac:(lia)).
  pose proof (Z.div_mod (- Z.of_nat n) 20 ltac:(lia)).
  pose proof (Z.mod_pos_bound (- Z.of_nat n) 20 ltac:(lia)).
  lia.
Qed.

(** The number of pages is the least number of 20-item pages that hold [n]
    items. *)
Lemma totalPages_least n :
  (Z.of_nat n ≤ 20 * totalPages n)%Z
  ∧ ∀ k : Z, (Z.of_nat n ≤ 20 * k)%Z → (totalPages n ≤ k)%Z.
Proof.
  rewrite totalPages_eq.
  pose proof (Z.div_mod (Z.of_nat n + 19) 20 ltac:(lia)).
  pose proof (Z.mod_pos_bound (Z.of_nat n + 19) 20 ltac:(lia)).
  split; [lia | intros k Hk; lia].
Qed.

(** Between bounds that are not negative, [slice] is [take] after [drop]. *)
Lemma slice_nonneg (a b : nat) l :
  slice (Z.of_nat a) (Z.of_nat (a + b)) l = take b (drop a l).
Proof.
  unfold slice.
  destruct (Z.ltb_spec (Z.of_nat a) 0) as [|_]; [lia|].
  destruct (Z.ltb_spec (Z.of_nat (a + b)) 0) as [|_]; [lia|].
  destruct (decide (a ≤ length l)%nat) as [Ha|Ha].
  - rewrite (Z.min_l (Z.of_nat a)) by lia. rewrite Nat2Z.id.
    destruct (decide (a + b ≤ length l)%nat).
    + rewrite Z.min_l by lia. f_equal. lia.
    + rewrite Z.min_r by lia.
      rewrite !take_ge; [done|rewrite length_drop; lia..].
  - rewrite (Z.min_r (Z.of_nat a)) by lia. rewrite Nat2Z.id.
    rewrite !drop_ge by lia. by rewrite !take_nil.
Qed.

(** Page [p + 1] of a list: 20 items from position [20 p]. *)
Lemma page_take_drop (p : nat) l :
  slice ((Z.of_nat p + 1 - 1) * itemsPerPage)
        ((Z.of_nat p + 1) * itemsPerPage) l
  = take 20 (drop (20 * p) l).
Proof.
  rewrite <- (slice_nonneg (20 * p) 20 l). unfold itemsPerPage. f_equal; lia.
Qed.

Lemma pages_concat (k : nat) l :
  concat ((λ p : nat, take 20 (drop (20 * p) l)) <$> seq 0 k)
  = take (20 * k) l.
Proof.
  induction k as [|k IH]; [by rewrite Nat.mul_0_r, take_0|].
  rewrite seq_S, fmap_app, concat_app, IH. cbn [fmap list_fmap concat].
  rewrite app_nil_r, Nat.add_0_l, take_take_drop. f_equal. lia.
Qed.

End Pagination.

(** C8: for a filtered-and-sorted list of [L] leads, [totalPages] is the
    least number of 20-item pages that hold [L] items, that is ceil(L/20);
    every page before the last holds 20 leads, the last page holds
    [L - 20 * (totalPages - 1)] leads, and the pages 1 .. [totalPages] in
    order, put end to end, are the list. *)
Theorem pagination_arithmetic (filtered : list Lead) :
  let L := Z.of_nat (length filtered) in
  let T := totalPages (length filtered) in
  ((L ≤ 20 * T)%Z ∧ ∀ k : Z, (L ≤ 20 * k)%Z → (T ≤ k)%Z)
  ∧ (∀ p : Z, (1 ≤ p < T)%Z → length (paginatedLeads filtered p) = 20%nat)
  ∧ ((1 ≤ T)%Z →
     Z.of_nat (length (paginatedLeads filtered T)) = (L - 20 * (T - 1))%Z)
  ∧ concat (paginatedLeads filtered <$> seqZ 1 T) = filtered.
Proof.
  intros L T.
  destruct (totalPages_least (length filtered)) as [Hup Hleast].
  fold L T in Hup, Hleast.
  assert (0 ≤ T)%Z as HT0.
  { unfold T. rewrite totalPages_eq. apply Z.div_pos; lia. }
  assert (∀ p : nat, paginatedLeads filtered (Z.of_nat p + 1)
                     = take 20 (drop (20 * p) filtered)) as Hpage.
  { intros p. apply page_take_drop. }
  split; [done|]. split; [|split].
  - intros p [Hp1 HpT].
    replace p with (Z.of_nat (Z.to_nat (p - 1)) + 1)%Z by lia.
    rewrite Hpage, length_take, length_drop.
    specialize (Hleast p). lia.
  - intros HT1.
    replace T with (Z.of_nat (Z.to_nat (T - 1)) + 1)%Z at 1 by lia.
    rewrite Hpage, length_take, length_drop.
    specialize (Hleast (T - 1)%Z). lia.
  - unfold seqZ. rewrite <- list_fmap_compose.
    rewrite (list_fmap_ext _ (λ p : nat, take 20 (drop (20 * p) filtered)));
      [|intros i p _; apply Hpage].
    rewrite pages_concat. apply take_ge. lia.
Qed.

(** ** Per-lead handlers *)

Lemma id_is_spec (leadId : string) (lead : Lead) :
  id_is leadId lead = true ↔ id lead = Some leadId.
Proof.
  unfold id_is. destruct (id lead) as [i|]; [|done].
  rewrite String.eqb_eq. split; congruence.
Qed.

(** [leads.map(lead => lead.id === leadId ? f(lead) : lead)] touches only the
    leads with that identity. *)
Lemma map_updates_only (leadId : string) (change : Lead → Lead → Prop)
  (f : Lead → Lead) (before : list Lead) :
  (∀ lead, change lead (f lead)) →
  updates_only leadId change before
    ((λ lead, if id_is leadId lead then f lead else lead) <$> before).
Proof.
  intros Hf. split; [apply length_fmap|].
  intros i lead Hi. rewrite list_lookup_fmap, Hi. cbn.
  destruct (id_is leadId lead) eqn:E.
  - exists (f lead). apply id_is_spec in E. by repeat split.
  - exists lead. repeat split; intros Hid.
    apply id_is_spec in Hid. congruence.
Qed.

(** C10: each of the three handlers returns the lead list with the same
    length and order; leads whose identity is not the target are unchanged,
    and a lead with the target identity differs from the old one only in
    [lead_status], in [followUpDate] and [followUpTime], or in
    [customerComment], respectively. *)
Theorem handlers_update_only_target
  (d : Dashboard) (leadId newStatus date time comment : string) :
  updates_only leadId (status_set newStatus) (leads d)
    (leads (handleStatusUpdate leadId newStatus d))
  ∧ updates_only leadId (followUp_set date time) (leads d)
      (leads (handleFollowUpScheduled leadId date time d))
  ∧ updates_only leadId (customerComment_set comment) (leads d)
      (leads (handleUpdateCustomerComment leadId comment d)).
Proof.
  unfold handleStatusUpdate, handleFollowUpScheduled,
    handleUpdateCustomerComment.
  cbn [leads setLeads].
  split; [|split]; apply map_updates_only; intros lead; by repeat split.
Qed.

(** ** Initial load *)

(** The [catch] block handles every thrown value, and changes the
    component only. *)
Lemma load_catch_settles (e : Thrown) (s : Dashboard * World) :
  ∃ d', load_catch e s = (inr tt, (d', s.2)).
Proof.
  destruct e as [st m|m|v]; cbn; [case_bool_decide|..]; by eexists.
Qed.

(** [load] itself never throws, and always leaves the spinner off. *)
Lemma load_settles (env : Env) (d : Dashboard) (w : World) :
  ∃ d' w', load env (d, w) = (inr tt, (d', w')) ∧ loading d' = false.
Proof.
  unfold load, try_finally, try_catch, bind, setState, call. cbn [fst snd].
  destruct (fetchLeadsFromFirestore env w) as [[e|initial] w1].
  - destruct (load_catch_settles e (setLoading true d, w1)) as [d' ->].
    by eexists _, _.
  - cbn [fst snd]. destruct (syncLeadsFromSheets env w1) as [[e|[]] w2].
    + destruct (load_catch_settles e
        (computeKPIs initial (setLeads initial (setLoading true d)), w2))
        as [d' ->].
      by eexists _, _.
    + cbn [fst snd].
      destruct (fetchLeadsFromFirestore env w2) as [[e|updated] w3].
      * destruct (load_catch_settles e
          (computeKPIs initial (setLeads initial (setLoading true d)), w3))
          as [d' ->].
        by eexists _, _.
      * by eexists _, _.
Qed.

(** The one [catch] block classifies a failure of the first read ... *)
Lemma load_initial_read_fails (env : Env) (d : Dashboard) (w w1 : World)
  (e : Thrown) :
  fetchLeadsFromFirestore env w = (inl e, w1) →
  load env (d, w)
  = (inr tt,
     (setLoading false (load_catch e (setLoading true d, w1)).2.1, w1)).
Proof.
  intros E. unfold load, try_finally, try_catch, bind, setState, call.
  cbn [fst snd]. rewrite E.
  by destruct (load_catch_settles e (setLoading true d, w1)) as [d' ->].
Qed.

(** ... and a failure of sync alike. *)
Lemma load_sync_fails (env : Env) (d : Dashboard) (w w1 w2 : World)
  (initial : list Lead) (e : Thrown) :
  fetchLeadsFromFirestore env w = (inr initial, w1) →
  syncLeadsFromSheets env w1 = (inl e, w2) →
  load env (d, w)
  = (inr tt,
     (setLoading false
        (load_catch e
           (computeKPIs initial (setLeads initial (setLoading true d)), w2)).2.1,
      w2)).
Proof.
  intros E1 E2. unfold load, try_finally, try_catch, bind, setState, call.
  cbn [fst snd]. rewrite E1. cbn [fst snd]. rewrite E2.
  by destruct (load_catch_settles e
    (computeKPIs initial (setLeads initial (setLoading true d)), w2))
    as [d' ->].
Qed.

(** What the [catch] block stores: the warning for an Axios error with
    response status 500; the message of any other [Error]; a fixed text for a
    thrown value that is not an [Error]. *)
Lemma load_catch_classifies (s : Dashboard * World) :
  (∀ m, (load_catch (AxiosError (Some 500%nat) m) s).2.1
        = setWarning (Some "No leads available for your account") s.1)
  ∧ (∀ st m, st ≠ Some 500%nat →
       (load_catch (AxiosError st m) s).2.1
       = setError ("Failed to load leads: " +:+ m) s.1)
  ∧ (∀ m, (load_catch (JsError m) s).2.1
          = setError ("Failed to load leads: " +:+ m) s.1)
  ∧ (∀ v, (load_catch (NonError v) s).2.1
          = setError "Failed to load leads due to an unknown error" s.1).
Proof.
  repeat split; intros; cbn -[bool_decide]; try done.
  by rewrite bool_decide_eq_false_2.
Qed.

(** The yellow box is rendered only when [error] is set, and the line of text
    it shows is [warning]. *)
Lemma render_WarningBox (d : Dashboard) (text : option string) :
  render d = WarningBox text
  ↔ loading d = false ∧ error d ≠ "" ∧ text = warning d.
Proof.
  unfold render. destruct (loading d); [by split; [|intros [? _]]|].
  destruct (String.eqb_spec (error d) "") as [->|Hne]; cbn.
  - split; [done | by intros (_ & ? & _)].
  - split; [by intros [= <-] | by intros (_ & _ & ->)].
Qed.

(** C9 (the code at the failing inputs): when the feed answers with status
    500 the warning "No leads available for your account" is stored and no
    error is, yet what is rendered is the dashboard proper, without that
    text; when the first store read is rejected the error message is stored,
    yet the box that is rendered shows no text. *)
Theorem load_failure_not_shown :
  let soft := (load env_feed_500 (mount, demo_world)).2.1 in
  let hard := (load env_store_denied (mount, demo_world)).2.1 in
  (warning soft = Some "No leads available for your account"
   ∧ error soft = ""
   ∧ render soft = Main (kpis soft) (leads soft) None)
  ∧ (error hard = "Failed to load leads: Missing or insufficient permissions."
     ∧ warning hard = None
     ∧ render hard = WarningBox None).
Proof. vm_compute. repeat split. Qed.

(** ** The theorems at concrete inputs *)

Lemma demo_env_no_faults : ∀ n, firestore_fault demo_env n = None.
Proof. reflexivity. Defined.

Lemma demo_phone_not_empty : demo_phone ≠ "".
Proof. discriminate. Defined.

(** With [jane] stored and the feed bringing [jane] and [bob], sync creates
    one document, for [bob]. *)
Lemma sync_creates_exactly_new_leads_witness :
  ∃ (w' : World) (created : list LeadDoc),
    syncLeadsFromSheets demo_env demo_world = (inr tt, w')
    ∧ storedLeads w' "919876543210" = ("doc-1", jane) :: created
    ∧ created.*2 = [bob]
    ∧ created.*1 = ["auto-0"].
Proof.
  destruct (sync_creates_exactly_new_leads demo_env demo_phone demo_world
              [jane; bob] demo_env_no_faults eq_refl demo_phone_not_empty
              eq_refl)
    as (w' & created & Hrun & Hstored & Hdata & Hkeys & _).
  exists w', created. split; [exact Hrun|]. split; [exact Hstored|].
  assert (created.*2 = [bob]) as Hbob by (rewrite Hdata; reflexivity).
  split; [exact Hbob|].
  rewrite Hkeys, <- (length_fmap snd created), Hbob. reflexivity.
Defined.

Lemma sync_twice_creates_nothing_witness :
  ∃ w1 w2 : World,
    syncLeadsFromSheets demo_env demo_world = (inr tt, w1)
    ∧ syncLeadsFromSheets demo_env w1 = (inr tt, w2)
    ∧ leadsCol w2 = leadsCol w1
    ∧ generated w2 = generated w1.
Proof.
  exact (sync_twice_creates_nothing demo_env demo_phone demo_world [jane; bob]
           demo_env_no_faults eq_refl demo_phone_not_empty eq_refl).
Defined.

(** The import example of the specification: one lead, status "New Lead". *)
Lemma parseCSV_shape_and_defaults_witness :
  errors (papa_example csv_example) = []
  ∧ ∃ (parsed : list Lead) (lead : Lead),
      parseCSV papa_example demo_clock csv_example = inr parsed
      ∧ length parsed = 1%nat
      ∧ parsed !! 0%nat = Some lead
      ∧ lead_status lead = "New Lead"
      ∧ name lead = "Jane".
Proof.
  split; [reflexivity|].
  destruct (parseCSV_shape_and_defaults papa_example demo_clock csv_example
              eq_refl) as (parsed & Hrun & Hlen & _ & Hrows).
  destruct (Hrows 0%nat _ eq_refl)
    as (lead & Hat & _ & _ & _ & Hname & _ & Hstatus & _).
  exists parsed, lead. split; [exact Hrun|]. split; [exact Hlen|].
  split; [exact Hat|]. split.
  - apply (proj1 Hstatus). right. reflexivity.
  - apply (proj2 Hname "Jane"); [reflexivity | discriminate].
Defined.

Lemma parseCSV_rejects_whole_file_witness :
  errors (papa_ragged csv_ragged) ≠ []
  ∧ parseCSV papa_ragged demo_clock csv_ragged
    = inl (JsError "Invalid CSV format").
Proof.
  split; [discriminate|].
  apply (parseCSV_rejects_whole_file papa_ragged demo_clock csv_ragged).
  discriminate.
Defined.

(** 45 leads: three pages, of 20, 20 and 5 leads. *)
Lemma pagination_arithmetic_witness :
  totalPages 45 = 3%Z
  ∧ length (paginatedLeads (replicate 45 jane) 2) = 20%nat
  ∧ length (paginatedLeads (replicate 45 jane) 3) = 5%nat.
Proof.
  destruct (pagination_arithmetic (replicate 45 jane))
    as (_ & Hfull & Hlast & _).
  split; [reflexivity|]. split.
  - apply Hfull. vm_compute. split; discriminate || reflexivity.
  - apply Nat2Z.inj. rewrite length_replicate in Hlast.
    apply Hlast. vm_compute. discriminate.
Defined.

(** Updating the status of "doc-1" in a list of two leads. *)
Lemma handlers_update_only_target_witness :
  let john := mkLead (Some "doc-2") "2024-01-06T08:00:00Z" "fb" "John"
                     "919800000000" "New Lead" "" None None None in
  let d := setLeads [lead_with_link; john] mount in
  ∃ lead' : Lead,
    leads (handleStatusUpdate "doc-1" "Meeting Done" d) !! 0%nat = Some lead'
    ∧ status_set "Meeting Done" lead_with_link lead'.
Proof.
  intros john d.
  destruct (handlers_update_only_target d "doc-1" "Meeting Done" "" "" "")
    as [[_ Hstatus] _].
  destruct (Hstatus 0%nat lead_with_link eq_refl) as (lead' & Hat & _ & Hset).
  exists lead'. split; [exact Hat | exact (Hset eq_refl)].
Defined.

(** * Further properties of the sources *)

(** ** Sheet sync: failures and what is never touched *)

(** Without a signed-in user that has a phone number, sync throws its
    authentication error before any request is sent: the world is as it
    was. *)
Theorem sync_requires_phone (env : Env) (w : World) :
  signed_out w →
  syncLeadsFromSheets env w
  = (inl (JsError "User not authenticated or phone number missing!!"), w).
Proof.
  unfold signed_out, syncLeadsFromSheets, try_catch, bind, getCurrentUser.
  destruct (currentUser w) as [[[phone|]]|]; [|done..].
  by intros ->.
Qed.

Lemma sync_requires_phone_witness :
  syncLeadsFromSheets demo_env
    (mkWorld (Some (mkUser None)) ∅ ∅ 0 0)
  = (inl (JsError "User not authenticated or phone number missing!!"),
     mkWorld (Some (mkUser None)) ∅ ∅ 0 0).
Proof. apply (sync_requires_phone demo_env). exact I. Defined.

(** When the feed request fails, sync throws what the request threw; the
    marker document has been stamped by then and stays stamped, and no lead
    document is created. *)
Theorem sync_feed_failure
  (env : Env) (phone : string) (w : World) (e : Thrown) :
  firestore_fault env (requests w) = None →
  signed_in phone w → phone ≠ "" →
  axios_get env (API_URL (slice_last 10 (digits_only phone))) = inl e →
  ∃ w' : World,
    syncLeadsFromSheets env w = (inl e, w')
    ∧ leadsCol w' = leadsCol w
    ∧ generated w' = generated w
    ∧ requests w' = S (requests w)
    ∧ crm_users w' = crm_users (marked env (digits_only phone) w).
Proof.
  intros Hok Hw Hne Hfeed.
  unfold syncLeadsFromSheets, try_catch, getCurrentUser.
  unfold bind at 1. rewrite Hw.
  destruct (String.eqb_spec phone "") as [|_]; [done|].
  unfold bind at 1, setDoc_merge, firestore_request at 1.
  rewrite Hok. unfold bind at 1. cbn [currentUser]. rewrite Hfeed.
  by eexists.
Qed.

Lemma sync_feed_failure_witness :
  ∃ w' : World,
    syncLeadsFromSheets env_feed_500 demo_world
    = (inl (AxiosError (Some 500%nat) "Request failed with status code 500"),
       w')
    ∧ leadsCol w' = leadsCol demo_world.
Proof.
  destruct (sync_feed_failure env_feed_500 demo_phone demo_world
              (AxiosError (Some 500%nat) "Request failed with status code 500")
              eq_refl eq_refl demo_phone_not_empty eq_refl)
    as (w' & Hrun & Hleads & _).
  exists w'. split; [exact Hrun | exact Hleads].
Defined.

Section KeepsLeads.

Lemma extends_refl w : extends w w.
Proof. by split. Qed.

Lemma extends_trans w1 w2 w3 : extends w1 w2 → extends w2 w3 → extends w1 w3.
Proof.
  intros [Hu1 Hp1] [Hu2 Hp2]. split; [congruence|].
  intros k. etrans; [apply Hp1 | apply Hp2].
Qed.

Lemma extends_asked w : extends w (asked w).
Proof. by split. Qed.

Lemma keeps_ret {A} (a : A) : keeps_leads (ret a).
Proof. intros w. apply extends_refl. Qed.

Lemma keeps_throw {A} (e : Thrown) : keeps_leads (throw (A:=A) e).
Proof. intros w. apply extends_refl. Qed.

Lemma keeps_settled {A} (r : Thrown + A) : keeps_leads (λ w, (r, w)).
Proof. intros w. apply extends_refl. Qed.

Lemma keeps_getCurrentUser : keeps_leads getCurrentUser.
Proof. intros w. apply extends_refl. Qed.

Lemma keeps_bind {A B} (m : M World A) (k : A → M World B) :
  keeps_leads m → (∀ a, keeps_leads (k a)) → keeps_leads (bind m k).
Proof.
  intros Hm Hk w. unfold bind. specialize (Hm w).
  destruct (m w) as [[e|a] w1]; [done|].
  eapply extends_trans; [exact Hm | apply Hk].
Qed.

Lemma keeps_try_catch {A} (m : M World A) (h : Thrown → M World A) :
  keeps_leads m → (∀ e, keeps_leads (h e)) → keeps_leads (try_catch m h).
Proof.
  intros Hm Hh w. unfold try_catch. specialize (Hm w).
  destruct (m w) as [[e|a] w1]; [|done].
  eapply extends_trans; [exact Hm | apply Hh].
Qed.

Lemma keeps_settle {A} (m : M World A) : keeps_leads m → keeps_leads (settle m).
Proof.
  intros Hm w. unfold settle. specialize (Hm w). by destruct (m w).
Qed.

Lemma keeps_mapM {A B} (f : A → M World B) (xs : list A) :
  (∀ x, keeps_leads (f x)) → keeps_leads (mapM f xs).
Proof.
  intros Hf. induction xs as [|x xs IH]; [apply keeps_ret|].
  cbn [mapM]. apply keeps_bind; [done|]. intros y.
  apply keeps_bind; [done|]. intros ys. apply keeps_ret.
Qed.

Lemma keeps_Promise_all {A} (ps : list (Thrown + A)) :
  keeps_leads (Promise_all ps).
Proof.
  induction ps as [|[e|a] ps IH]; cbn [Promise_all].
  - apply keeps_ret.
  - apply keeps_throw.
  - apply keeps_bind; [done|]. intros r. apply keeps_ret.
Qed.

Lemma keeps_request {A} (env : Env) (run : World → A * World) :
  (∀ w, extends w (run w).2) → keeps_leads (firestore_request env run).
Proof.
  intros Hrun w. unfold firestore_request.
  destruct (firestore_fault env (requests w)); [apply extends_asked|].
  specialize (Hrun (asked w)). unfold asked in Hrun.
  destruct (run _) as [a w2]. by eapply extends_trans; [apply extends_asked|].
Qed.

Lemma keeps_getLeadsCol : keeps_leads getLeadsCol.
Proof.
  apply keeps_bind; [apply keeps_getCurrentUser|].
  intros [[[phone|]]|]; apply keeps_ret || apply keeps_throw.
Qed.

Lemma keeps_setDoc_merge env key fields :
  keeps_leads (setDoc_merge env key fields).
Proof. apply keeps_request. intros w. by split. Qed.

Lemma keeps_getDocs env col : keeps_leads (getDocs env col).
Proof. apply keeps_request. intros w. by split. Qed.

Lemma keeps_addDoc env col lead : keeps_leads (addDoc env col lead).
Proof.
  apply keeps_request. intros w. split; [done|]. intros k.
  unfold storedLeads at 2. cbn [snd leadsCol].
  destruct (decide (col = k)) as [->|Hne].
  - rewrite lookup_insert_eq. cbn. by apply prefix_app_r.
  - by rewrite lookup_insert_ne.
Qed.

End KeepsLeads.

(** Whatever the feed and the store do, a run of sync leaves the session as
    it is and never removes, reorders or rewrites a stored lead document:
    each collection still begins with the documents it had. *)
Theorem sync_only_appends (env : Env) (w : World) :
  extends w (syncLeadsFromSheets env w).2.
Proof.
  revert w. change (keeps_leads (syncLeadsFromSheets env)).
  unfold syncLeadsFromSheets.
  apply keeps_try_catch; [|intros e; apply keeps_throw].
  apply keeps_bind; [apply keeps_getCurrentUser|].
  intros [[[phone|]]|]; [|apply keeps_throw..].
  destruct (String.eqb phone ""); [apply keeps_throw|].
  apply keeps_bind; [apply keeps_setDoc_merge|]. intros _.
  apply keeps_bind; [apply keeps_settled|]. intros sheetsLeads.
  apply keeps_bind; [apply keeps_getLeadsCol|]. intros col.
  apply keeps_bind; [apply keeps_getDocs|]. intros docs.
  apply keeps_bind.
  - apply keeps_mapM. intros lead.
    apply keeps_bind; [apply keeps_getLeadsCol|]. intros c.
    apply keeps_settle, keeps_addDoc.
  - intros created. apply keeps_bind; [apply keeps_Promise_all|].
    intros _. apply keeps_ret.
Qed.

(** A successful run of sync stamps the marker document of the user: its
    [source] is "sheet" and its [lastSyncedAt] the time of the run; the other
    fields of that document are merged, not lost, and the marker documents of
    other users are untouched. *)
Theorem sync_stamps_marker
  (env : Env) (phone : string) (w : World) (feed : list Lead) :
  (∀ n, firestore_fault env n = None) →
  signed_in phone w → phone ≠ "" →
  axios_get env (API_URL (slice_last 10 (digits_only phone))) = inr feed →
  ∃ (w' : World) (doc : gmap string string),
    syncLeadsFromSheets env w = (inr tt, w')
    ∧ crm_users w' !! digits_only phone = Some doc
    ∧ doc !! "source" = Some "sheet"
    ∧ doc !! "lastSyncedAt" = Some (now_ISOString env)
    ∧ (∀ field old, field ≠ "source" → field ≠ "lastSyncedAt" →
         crm_users w !! digits_only phone = Some old →
         doc !! field = old !! field)
    ∧ (∀ key, key ≠ digits_only phone →
         crm_users w' !! key = crm_users w !! key).
Proof.
  intros Hok Hw Hne Hfeed.
  eexists _, _. split; [by apply syncLeadsFromSheets_ok|].
  destruct (foldl_added_frame env phone
              (newLeads (storedLeads w (digits_only phone)).*2 feed)
              (marked env (digits_only phone) w)) as (_ & -> & _).
  cbn [marked crm_users].
  split; [apply lookup_insert_eq|].
  split; [apply lookup_insert_eq|].
  split; [by rewrite lookup_insert_ne, lookup_insert_eq|].
  split.
  - intros field old Hs Ht ->. cbn. by rewrite !lookup_insert_ne.
  - intros key Hkey. by rewrite lookup_insert_ne.
Qed.

Lemma sync_stamps_marker_witness :
  ∃ (w' : World) (doc : gmap string string),
    syncLeadsFromSheets demo_env demo_world = (inr tt, w')
    ∧ crm_users w' !! "919876543210" = Some doc
    ∧ doc !! "source" = Some "sheet".
Proof.
  destruct (sync_stamps_marker demo_env demo_phone demo_world [jane; bob]
              demo_env_no_faults eq_refl demo_phone_not_empty eq_refl)
    as (w' & doc & Hrun & Hdoc & Hsource & _).
  exists w', doc. split; [exact Hrun|]. split; [exact Hdoc | exact Hsource].
Defined.

(** ** The sheet name *)

Section SheetName.

#[local] Arguments String.append !_ _ /.

Lemma digits_only_digits c s : occurs c (digits_only s) → is_digit c = true.
Proof.
  induction s as [|d s IH]; cbn; [done|].
  destruct (is_digit d) eqn:E; [|done]. cbn. by intros [->|H]; auto.
Qed.

Lemma string_drop_suffix n s : ∃ pre, s = pre +:+ string_drop n s.
Proof.
  revert s. induction n as [|n IH]; intros s; [by exists ""|].
  destruct s as [|c s]; [by exists ""|].
  destruct (IH s) as [pre E]. exists (String c pre). cbn. by rewrite <- E.
Qed.

Lemma string_drop_length n s :
  String.length (string_drop n s) = (String.length s - n)%nat.
Proof.
  revert s. induction n as [|n IH]; intros [|c s]; cbn; auto with lia.
Qed.

Lemma occurs_app c a b : occurs c (a +:+ b) ↔ occurs c a ∨ occurs c b.
Proof. induction a as [|d a IH]; cbn; [tauto|]. rewrite IH. tauto. Qed.

End SheetName.

(** The sheet name sync asks the feed for is the end of the phone number
    from which everything but decimal digits was removed: it has at most ten
    characters, all of them decimal digits. *)
Theorem sheetName_shape (phone : string) :
  let sheetName := slice_last 10 (digits_only phone) in
  (String.length sheetName ≤ 10)%nat
  ∧ (∀ c, occurs c sheetName → is_digit c = true)
  ∧ (∃ pre, digits_only phone = pre +:+ sheetName)
  ∧ ((String.length (digits_only phone) ≤ 10)%nat →
     sheetName = digits_only phone).
Proof.
  cbn. unfold slice_last. split; [rewrite string_drop_length; lia|].
  split; [|split].
  - intros c Hc. apply (digits_only_digits c phone).
    destruct (string_drop_suffix (String.length (digits_only phone) - 10)
                (digits_only phone)) as [pre E].
    rewrite E. apply occurs_app. by right.
  - apply string_drop_suffix.
  - intros Hlen. by replace (String.length (digits_only phone) - 10)%nat
      with 0%nat by lia.
Qed.

Lemma sheetName_shape_witness :
  slice_last 10 (digits_only "98765") = digits_only "98765".
Proof.
  apply (sheetName_shape "98765"). vm_compute. lia.
Defined.

(** ** Sync does not deduplicate the feed against itself *)

Lemma filter_filter_same {A} (P Q : A → Prop)
  `{∀ x, Decision (P x)} `{∀ x, Decision (Q x)} (l : list A) :
  (∀ x, P x → Q x) → filter P (filter Q l) = filter P l.
Proof.
  intros HPQ. induction l as [|x l IH]; [done|].
  rewrite !filter_cons. destruct (decide (Q x)) as [HQ|HQ].
  - rewrite filter_cons, IH. done.
  - rewrite IH. destruct (decide (P x)) as [HP|]; [|done].
    by destruct HQ; apply HPQ.
Qed.

Lemma fmap_filter_comp {A B} (f : A → B) (P : B → Prop)
  `{∀ y, Decision (P y)} (l : list A) :
  f <$> filter (λ x, P (f x)) l = filter P (f <$> l).
Proof.
  induction l as [|x l IH]; [done|].
  cbn [fmap list_fmap]. rewrite !filter_cons.
  destruct (decide (P (f x))); cbn [fmap list_fmap]; by rewrite IH.
Qed.

(** The stored keys are collected once, before the feed is filtered: a lead
    whose key is not stored and which the feed lists [n] times is created [n]
    times by one run of sync. *)
Theorem sync_creates_feed_duplicates
  (env : Env) (phone : string) (w : World) (feed : list Lead) (lead : Lead) :
  (∀ n, firestore_fault env n = None) →
  signed_in phone w → phone ≠ "" →
  axios_get env (API_URL (slice_last 10 (digits_only phone))) = inr feed →
  generateLeadHash lead
    ∉ generateLeadHash <$> (storedLeads w (digits_only phone)).*2 →
  ∃ (w' : World) (created : list LeadDoc),
    syncLeadsFromSheets env w = (inr tt, w')
    ∧ storedLeads w' (digits_only phone)
      = (storedLeads w (digits_only phone) ++ created)%list
    ∧ length (filter (λ doc, doc.2 = lead) created)
      = length (filter (λ l, l = lead) feed).
Proof.
  intros Hok Hw Hne Hfeed Hnew.
  set (kept := newLeads (storedLeads w (digits_only phone)).*2 feed).
  set (keys := autoId env <$> seq (generated w) (length kept)).
  exists (foldl (added env (digits_only phone))
                (marked env (digits_only phone) w) kept), (zip keys kept).
  split; [by apply syncLeadsFromSheets_ok|].
  split; [by rewrite foldl_added_stored|].
  rewrite <- (length_fmap snd (filter _ (zip keys kept))).
  pose proof (fmap_filter_comp snd (λ l, l = lead) (zip keys kept)) as E.
  cbn beta in E. rewrite E. clear E.
  rewrite snd_zip by (unfold keys; by rewrite length_fmap, length_seq).
  unfold kept. rewrite newLeads_spec.
  rewrite filter_filter_same; [done|]. by intros l ->.
Qed.

Lemma sync_creates_feed_duplicates_witness :
  ∃ (w' : World) (created : list LeadDoc),
    syncLeadsFromSheets
      (mkEnv (λ _, inr [bob; jane; bob]) (λ _, None) demo_autoId "") demo_world
    = (inr tt, w')
    ∧ length (filter (λ doc, doc.2 = bob) created) = 2%nat.
Proof.
  destruct (sync_creates_feed_duplicates
              (mkEnv (λ _, inr [bob; jane; bob]) (λ _, None) demo_autoId "")
              demo_phone demo_world [bob; jane; bob] bob
              (λ _, eq_refl) eq_refl demo_phone_not_empty eq_refl)
    as (w' & created & Hrun & _ & Hcount).
  - vm_compute. intros H. by apply list_elem_of_singleton in H.
  - exists w', created. split; [exact Hrun | exact Hcount].
Defined.

(** ** Reading the store *)

Lemma fetchLeadsFromFirestore_ok (env : Env) (phone : string) (w : World) :
  firestore_fault env (requests w) = None →
  signed_in phone w →
  fetchLeadsFromFirestore env w
  = (inr (docToLead <$> storedLeads w (digits_only phone)), asked w).
Proof.
  intros Hok Hw.
  unfold fetchLeadsFromFirestore, try_catch. unfold bind at 1.
  rewrite (getLeadsCol_signed_in phone) by done.
  unfold bind, getDocs, firestore_request. by rewrite Hok.
Qed.

(** With the user signed in and the store answering, the read returns one
    lead per stored document, in the order of the collection; each lead has
    an identity, the document key unless the data carries an [id] of its
    own, and otherwise the data as stored.  The read changes nothing but the
    count of requests. *)
Theorem fetchLeadsFromFirestore_view
  (env : Env) (phone : string) (w : World) :
  firestore_fault env (requests w) = None →
  signed_in phone w →
  ∃ fetched : list Lead,
    fetchLeadsFromFirestore env w = (inr fetched, asked w)
    ∧ length fetched = length (storedLeads w (digits_only phone))
    ∧ ∀ (i : nat) (key : string) (data : Lead),
        storedLeads w (digits_only phone) !! i = Some (key, data) →
        ∃ lead : Lead,
          fetched !! i = Some lead
          ∧ id lead = Some (default key (id data))
          ∧ same_data data lead.
Proof.
  intros Hok Hw. exists (docToLead <$> storedLeads w (digits_only phone)).
  split; [by apply fetchLeadsFromFirestore_ok|]. split.
  - apply length_fmap.
  - intros i key data Hi. exists (docToLead (key, data)).
    split; [by rewrite list_lookup_fmap, Hi|].
    split; [cbn; by destruct (id data)|]. by repeat split.
Qed.

Lemma fetchLeadsFromFirestore_view_witness :
  ∃ (fetched : list Lead) (lead : Lead),
    fetchLeadsFromFirestore demo_env demo_world = (inr fetched, asked demo_world)
    ∧ fetched !! 0%nat = Some lead
    ∧ id lead = Some "doc-1"
    ∧ same_data jane lead.
Proof.
  destruct (fetchLeadsFromFirestore_view demo_env demo_phone demo_world
              eq_refl eq_refl) as (fetched & Hrun & _ & Hdocs).
  destruct (Hdocs 0%nat "doc-1" jane eq_refl) as (lead & Hat & Hid & Hdata).
  exists fetched, lead. split; [exact Hrun|]. split; [exact Hat|].
  split; [exact Hid | exact Hdata].
Defined.

(** ** Initial load: the paths through it *)

Lemma load_catch_keeps_list (e : Thrown) (s : Dashboard * World) :
  leads (load_catch e s).2.1 = leads s.1
  ∧ kpis (load_catch e s).2.1 = kpis s.1
  ∧ loading (load_catch e s).2.1 = loading s.1.
Proof. destruct e as [st m|m|v]; cbn; [case_bool_decide|..]; done. Qed.

(** When the store answers, the user is signed in and the feed answers, the
    load ends with exactly the documents of the user's collection on
    display, those stored before followed by those sync created; the cards
    are computed from that list, the spinner is off and neither an error nor
    a warning is stored. *)
Theorem load_shows_the_store
  (env : Env) (phone : string) (d : Dashboard) (w : World) (feed : list Lead) :
  (∀ n, firestore_fault env n = None) →
  signed_in phone w → phone ≠ "" →
  axios_get env (API_URL (slice_last 10 (digits_only phone))) = inr feed →
  ∃ (d' : Dashboard) (w' : World),
    load env (d, w) = (inr tt, (d', w'))
    ∧ leads d' = docToLead <$> storedLeads w' (digits_only phone)
    ∧ length (leads d')
      = (length (storedLeads w (digits_only phone))
         + length (newLeads (storedLeads w (digits_only phone)).*2 feed))%nat
    ∧ kpis d' = kpiCards (leads d')
    ∧ loading d' = false
    ∧ error d' = error d
    ∧ warning d' = warning d.
Proof.
  intros Hok Hw Hne Hfeed.
  set (kept := newLeads (storedLeads w (digits_only phone)).*2 feed).
  set (w2 := foldl (added env (digits_only phone))
                   (marked env (digits_only phone) (asked w)) kept).
  destruct (foldl_added_frame env phone kept
              (marked env (digits_only phone) (asked w)))
    as (Huser & _ & _ & _ & _). fold w2 in Huser.
  assert (signed_in phone w2) as Hw2 by (unfold signed_in; by rewrite Huser).
  exists (setLoading false
            (computeKPIs (docToLead <$> storedLeads w2 (digits_only phone))
               (setLeads (docToLead <$> storedLeads w2 (digits_only phone))
                  (computeKPIs (docToLead <$> storedLeads w (digits_only phone))
                     (setLeads (docToLead <$> storedLeads w (digits_only phone))
                        (setLoading true d)))))), (asked w2).
  split.
  - unfold load, try_finally, try_catch, bind, setState, call. cbn [fst snd].
    rewrite (fetchLeadsFromFirestore_ok env phone w) by done.
    cbn [fst snd].
    rewrite (syncLeadsFromSheets_ok env Hok phone (asked w) feed) by done.
    cbn [fst snd]. change (foldl _ _ _) with w2.
    by rewrite (fetchLeadsFromFirestore_ok env phone w2) by done.
  - cbn. split; [done|]. split; [|done].
    rewrite length_fmap. unfold w2. rewrite foldl_added_stored.
    rewrite length_app, length_zip_with, length_fmap, length_seq.
    change (storedLeads (marked env (digits_only phone) (asked w))
              (digits_only phone)) with (storedLeads w (digits_only phone)).
    lia.
Qed.

Lemma load_shows_the_store_witness :
  ∃ (d' : Dashboard) (w' : World),
    load demo_env (mount, demo_world) = (inr tt, (d', w'))
    ∧ length (leads d') = 2%nat
    ∧ kpis d' = kpiCards (leads d').
Proof.
  destruct (load_shows_the_store demo_env demo_phone mount demo_world
              [jane; bob] demo_env_no_faults eq_refl demo_phone_not_empty
              eq_refl)
    as (d' & w' & Hrun & _ & Hlen & Hkpis & _).
  exists d', w'. split; [exact Hrun|]. split; [exact Hlen | exact Hkpis].
Defined.

Lemma load_error_text_not_empty (m : string) :
  String.eqb ("Failed to load leads: " +:+ m) "" = false.
Proof.
  by change ("Failed to load leads: " +:+ m)
    with (String "F" ("ailed to load leads: " +:+ m)).
Qed.

(** When the first read succeeds and sync fails during the load of a freshly
    mounted dashboard, the component keeps the list of the first read and
    the cards computed from it, and the spinner is off; that list is what is
    rendered when the failure is an Axios error with status 500, and for any
    other failure the yellow box, with an empty line of text, is rendered in
    its place. *)
Theorem load_sync_failure_keeps_first_read
  (env : Env) (w w1 w2 : World) (initial : list Lead) (e : Thrown) :
  fetchLeadsFromFirestore env w = (inr initial, w1) →
  syncLeadsFromSheets env w1 = (inl e, w2) →
  ∃ d' : Dashboard,
    load env (mount, w) = (inr tt, (d', w2))
    ∧ leads d' = initial
    ∧ kpis d' = kpiCards initial
    ∧ loading d' = false
    ∧ ((∃ m, e = AxiosError (Some 500%nat) m) →
       render d' = Main (kpiCards initial) initial None)
    ∧ ((∀ m, e ≠ AxiosError (Some 500%nat) m) →
       render d' = WarningBox None).
Proof.
  intros E1 E2. eexists.
  split; [by apply (load_sync_fails env mount w w1 w2)|].
  destruct (load_catch_keeps_list e
    (computeKPIs initial (setLeads initial (setLoading true mount)), w2))
    as (Hl & Hk & _).
  cbn [setLoading leads kpis loading].
  split; [by rewrite Hl|]. split; [by rewrite Hk|]. split; [done|].
  split.
  - intros [m ->]. reflexivity.
  - intros Hother. destruct e as [st m|m|v]; cbn -[bool_decide String.append].
    + case_bool_decide as Hst; [by destruct (Hother m); subst st|].
      unfold render. cbn -[String.append].
      by rewrite load_error_text_not_empty.
    + unfold render. cbn -[String.append].
      by rewrite load_error_text_not_empty.
    + reflexivity.
Qed.

Lemma load_sync_failure_keeps_first_read_witness :
  ∃ d' : Dashboard,
    load env_feed_500 (mount, demo_world)
    = (inr tt,
       (d', (syncLeadsFromSheets env_feed_500 (asked demo_world)).2))
    ∧ leads d' = [docToLead ("doc-1", jane)]
    ∧ render d'
      = Main (kpiCards [docToLead ("doc-1", jane)])
             [docToLead ("doc-1", jane)] None.
Proof.
  destruct (load_sync_failure_keeps_first_read env_feed_500 demo_world
              (asked demo_world)
              (syncLeadsFromSheets env_feed_500 (asked demo_world)).2
              [docToLead ("doc-1", jane)]
              (AxiosError (Some 500%nat) "Request failed with status code 500"))
    as (d' & Hrun & Hl & _ & _ & Hsoft & _).
  - vm_compute. reflexivity.
  - vm_compute. reflexivity.
  - exists d'. split; [exact Hrun|]. split; [exact Hl|].
    apply Hsoft. eexists. reflexivity.
Defined.

(** Whatever the store, the session and the feed do, the initial load of a
    freshly mounted dashboard never puts its message on the screen: when the
    yellow box is rendered its line of text is empty, and when a warning is
    stored what is rendered is the dashboard proper. *)
Theorem load_never_shows_its_message (env : Env) (w : World) :
  let d := (load env (mount, w)).2.1 in
  (∀ text, render d = WarningBox text → text = None)
  ∧ (warning d ≠ None →
     error d = "" ∧ render d = Main (kpis d) (leads d) None).
Proof.
  assert (∀ e d0 w0, error d0 = "" → warning d0 = None →
            showPopup d0 = false →
            let d := setLoading false (load_catch e (d0, w0)).2.1 in
            (∀ text, render d = WarningBox text → text = None)
            ∧ (warning d ≠ None →
               error d = "" ∧ render d = Main (kpis d) (leads d) None))
    as Hcatch.
  { intros e d0 w0 He Hwarn Hpop.
    destruct e as [st m|m|v]; cbn -[bool_decide];
      [case_bool_decide|..]; cbn; unfold render; cbn;
      rewrite ?He, ?Hwarn, ?Hpop; cbn; split; try done;
      by intros text [= <-]. }
  cbn zeta.
  unfold load, try_finally, try_catch, bind, setState, call. cbn [fst snd].
  destruct (fetchLeadsFromFirestore env w) as [[e|initial] w1].
  - destruct (load_catch_settles e (setLoading true mount, w1)) as [d' E].
    pose proof (Hcatch e (setLoading true mount) w1 eq_refl eq_refl eq_refl)
      as H.
    rewrite E in H |- *. exact H.
  - cbn [fst snd]. destruct (syncLeadsFromSheets env w1) as [[e|[]] w2].
    + destruct (load_catch_settles e
        (computeKPIs initial (setLeads initial (setLoading true mount)), w2))
        as [d' E].
      pose proof (Hcatch e
        (computeKPIs initial (setLeads initial (setLoading true mount))) w2
        eq_refl eq_refl eq_refl) as H.
      rewrite E in H |- *. exact H.
    + cbn [fst snd].
      destruct (fetchLeadsFromFirestore env w2) as [[e|updated] w3].
      * destruct (load_catch_settles e
          (computeKPIs initial (setLeads initial (setLoading true mount)), w3))
          as [d' E].
        pose proof (Hcatch e
          (computeKPIs initial (setLeads initial (setLoading true mount))) w3
          eq_refl eq_refl eq_refl) as H.
        rewrite E in H |- *. exact H.
      * cbn. split; [|done]. by intros text.
Qed.

(** ** KPI cards: bounds and order *)

Lemma filter_disjoint_length {A} (P Q : A → Prop)
  `{∀ x, Decision (P x)} `{∀ x, Decision (Q x)} (l : list A) :
  (∀ x, P x → Q x → False) →
  (length (filter P l) + length (filter Q l) ≤ length l)%nat.
Proof.
  intros HPQ. induction l as [|x l IH]; [done|].
  rewrite !filter_cons.
  destruct (decide (P x)) as [HP|], (decide (Q x)) as [HQ|]; cbn; try lia.
  destruct (HPQ x HP HQ).
Qed.

(** The cards "Meeting Done" and "Deal Done" count disjoint sets of leads:
    together they never show more than the card "Total Leads". *)
Theorem kpi_counts_within_total (list : Datatypes.list Lead) (d : Dashboard) :
  ∃ total meeting deal : nat,
    kpiValue "Total Leads" (kpis (computeKPIs list d)) = Some total
    ∧ kpiValue "Meeting Done" (kpis (computeKPIs list d)) = Some meeting
    ∧ kpiValue "Deal Done" (kpis (computeKPIs list d)) = Some deal
    ∧ (meeting + deal ≤ total)%nat.
Proof.
  eexists _, _, _. repeat split.
  rewrite !(List_filter_bool_decide (λ l, lead_status l = _))
    by (intros l; apply eqb_bool_decide).
  apply filter_disjoint_length. intros l -> [=].
Qed.

(** The cards do not depend on the order in which the store returns the
    leads. *)
Theorem kpi_cards_ignore_order (l1 l2 : list Lead) :
  l1 ≡ₚ l2 → kpiCards l1 = kpiCards l2.
Proof.
  intros Hperm. unfold kpiCards.
  rewrite !(List_filter_bool_decide (λ l, lead_status l = _))
    by (intros l; apply eqb_bool_decide).
  by rewrite Hperm.
Qed.

Lemma kpi_cards_ignore_order_witness :
  kpiCards [jane; bob] = kpiCards [bob; jane].
Proof. apply kpi_cards_ignore_order. apply Permutation_swap. Defined.

(** ** Per-lead handlers: algebra *)

Section Handlers.

Lemma setLeads_same (d : Dashboard) : setLeads (leads d) d = d.
Proof. by destruct d. Qed.

Lemma fmap_fixed {A} (f : A → A) (l : list A) :
  (∀ x, x ∈ l → f x = x) → f <$> l = l.
Proof.
  intros Hf. induction l as [|x l IH]; [done|].
  cbn. rewrite Hf by left. f_equal. apply IH. intros y Hy. apply Hf. by right.
Qed.

Lemma id_is_false (leadId : string) (lead : Lead) :
  id lead ≠ Some leadId → id_is leadId lead = false.
Proof.
  intros Hne. destruct (id_is leadId lead) eqn:E; [|done].
  by apply id_is_spec in E.
Qed.

End Handlers.

(** A handler called with an identity no lead of the list has changes
    nothing. *)
Theorem handlers_ignore_unknown_id
  (d : Dashboard) (leadId newStatus date time comment : string) :
  (∀ lead, lead ∈ leads d → id lead ≠ Some leadId) →
  handleStatusUpdate leadId newStatus d = d
  ∧ handleFollowUpScheduled leadId date time d = d
  ∧ handleUpdateCustomerComment leadId comment d = d.
Proof.
  intros Hnone.
  unfold handleStatusUpdate, handleFollowUpScheduled,
    handleUpdateCustomerComment.
  repeat split; rewrite fmap_fixed; try apply setLeads_same;
    intros lead Hin; by rewrite id_is_false by auto.
Qed.

Lemma handlers_ignore_unknown_id_witness :
  handleStatusUpdate "doc-9" "Deal done" (setLeads [lead_with_link] mount)
  = setLeads [lead_with_link] mount.
Proof.
  apply (handlers_ignore_unknown_id (setLeads [lead_with_link] mount)
           "doc-9" "Deal done" "" "" "").
  intros lead Hin. apply list_elem_of_singleton in Hin. subst lead.
  discriminate.
Defined.

(** Calling a handler twice for the same lead leaves what the second call
    alone would leave: the last value wins. *)
Theorem handlers_last_write_wins
  (d : Dashboard) (leadId s1 s2 date1 time1 date2 time2 c1 c2 : string) :
  handleStatusUpdate leadId s2 (handleStatusUpdate leadId s1 d)
  = handleStatusUpdate leadId s2 d
  ∧ handleFollowUpScheduled leadId date2 time2
      (handleFollowUpScheduled leadId date1 time1 d)
    = handleFollowUpScheduled leadId date2 time2 d
  ∧ handleUpdateCustomerComment leadId c2
      (handleUpdateCustomerComment leadId c1 d)
    = handleUpdateCustomerComment leadId c2 d.
Proof.
  unfold handleStatusUpdate, handleFollowUpScheduled,
    handleUpdateCustomerComment, setLeads. cbn.
  repeat split; f_equal; rewrite <- list_fmap_compose;
    apply list_fmap_ext; intros i lead _; cbn;
    destruct (id_is leadId lead) eqn:E; cbn; unfold id_is in *; cbn;
    by rewrite E.
Qed.

(** The three handlers write different fields: in whichever order two of
    them are called, for the same lead or for different leads, the result is
    the same. *)
Theorem handlers_commute
  (d : Dashboard) (a b newStatus date time comment : string) :
  handleStatusUpdate a newStatus (handleUpdateCustomerComment b comment d)
  = handleUpdateCustomerComment b comment (handleStatusUpdate a newStatus d)
  ∧ handleStatusUpdate a newStatus (handleFollowUpScheduled b date time d)
    = handleFollowUpScheduled b date time (handleStatusUpdate a newStatus d)
  ∧ handleFollowUpScheduled a date time
      (handleUpdateCustomerComment b comment d)
    = handleUpdateCustomerComment b comment
        (handleFollowUpScheduled a date time d).
Proof.
  unfold handleStatusUpdate, handleFollowUpScheduled,
    handleUpdateCustomerComment, setLeads. cbn.
  repeat split; f_equal; rewrite <- !list_fmap_compose;
    apply list_fmap_ext; intros i lead _; cbn;
    destruct (id_is a lead) eqn:Ea, (id_is b lead) eqn:Eb; cbn;
    unfold id_is in *; cbn; by rewrite ?Ea, ?Eb.
Qed.

(** ** CSV import: what a parsed lead looks like *)

Lemma or_else_not_empty (cell : option string) (d : string) :
  d ≠ "" → or_else cell d ≠ "".
Proof.
  intros Hd. unfold or_else. destruct cell as [v|]; [|done].
  by destruct (String.eqb_spec v "").
Qed.

(** Every lead [parseCSV] returns has a status, an identity that begins with
    "imported-", and neither a customer comment nor a follow-up; it has a
    creation time as well, provided the clock never reads as the empty
    string. *)
Theorem parseCSV_leads_well_formed
  (Papa_parse : string → ParseResult) (clock : RowClock) (csvText : string)
  (parsed : list Lead) (lead : Lead) :
  parseCSV Papa_parse clock csvText = inr parsed →
  lead ∈ parsed →
  lead_status lead ≠ ""
  ∧ (∃ rest, id lead = Some ("imported-" +:+ rest))
  ∧ customerComment lead = None
  ∧ followUpDate lead = None
  ∧ followUpTime lead = None
  ∧ ((∀ i, Date_toISOString clock i ≠ "") → created_time lead ≠ "").
Proof.
  unfold parseCSV. destruct (0 <? _)%nat; [done|]. intros [= <-].
  intros (i & row & -> & _)%elem_of_lookup_imap.
  split; [by apply or_else_not_empty|].
  split; [by eexists|].
  repeat split. intros Hclock. by apply or_else_not_empty.
Qed.

Lemma parseCSV_leads_well_formed_witness :
  ∃ lead : Lead,
    parseCSV papa_example demo_clock csv_example = inr [lead]
    ∧ lead_status lead ≠ "".
Proof.
  eexists. split; [reflexivity|].
  apply (parseCSV_leads_well_formed papa_example demo_clock csv_example
           _ _ eq_refl).
  left.
Defined.

(** ** Saving imported leads *)

Lemma mapM_settle_run {R} (createLead : Lead → M World R) (ls : list Lead)
  (w : World) :
  ∃ rs, mapM (λ lead, settle (createLead lead)) ls w
        = (inr rs, foldl (λ w lead, (createLead lead w).2) w ls).
Proof.
  revert w. induction ls as [|lead ls IH]; intros w; [by eexists|].
  cbn [mapM foldl]. unfold bind at 1, settle at 1.
  destruct (createLead lead w) as [r w1]. cbn [snd].
  destruct (IH w1) as [rs E]. unfold bind at 1. rewrite E. by eexists.
Qed.

Lemma Promise_all_pure {St A} (ps : list (Thrown + A)) (s : St) :
  (Promise_all ps s).2 = s.
Proof.
  induction ps as [|[e|a] ps IH]; cbn; [done..|].
  unfold bind. destruct (Promise_all ps s) as [[e|r] s'] eqn:E; by cbn in *.
Qed.

Lemma importLeadsFromCSV_run {R} (createLead : Lead → M World R)
  (leads : list Lead) (w : World) :
  ∃ r, importLeadsFromCSV createLead leads w
       = (r, foldl (λ w lead, (createLead lead w).2) w leads)
       ∧ (r = inr tt ∨ r = inl (JsError "Failed to save leads to database")).
Proof.
  unfold importLeadsFromCSV, try_catch. unfold bind at 1.
  destruct (mapM_settle_run createLead leads w) as [rs ->].
  unfold bind. pose proof (Promise_all_pure rs
    (foldl (λ w lead, (createLead lead w).2) w leads)) as Hpure.
  destruct (Promise_all rs _) as [[e|r] w']; cbn in *; subst w';
    eexists; split; eauto.
Qed.

(** Saving a batch calls [createLead] once for every lead, in order, whether
    or not an earlier call failed, and nothing is undone; the batch either
    succeeds or throws the one message "Failed to save leads to database",
    whatever the cause was. *)
Theorem importLeadsFromCSV_outcome {R} (createLead : Lead → M World R)
  (leads : list Lead) (w : World) :
  (importLeadsFromCSV createLead leads w).2
  = foldl (λ w lead, (createLead lead w).2) w leads
  ∧ ((importLeadsFromCSV createLead leads w).1 = inr tt
     ∨ (importLeadsFromCSV createLead leads w).1
       = inl (JsError "Failed to save leads to database")).
Proof.
  destruct (importLeadsFromCSV_run createLead leads w) as (r & -> & Hr).
  by split.
Qed.

(** ** The import dialog *)

(** A file that cannot be read, or whose text PapaParse reports an error
    for, is turned away before anything is saved or read: the world and the
    list on display are as they were, the dialog stays open and shows
    "File reading failed" or "Invalid CSV format", and the file input is
    cleared.  With no file chosen nothing happens at all. *)
Theorem handleCSVImport_rejected_file_writes_nothing {R}
  (Papa_parse : string → ParseResult) (clock : RowClock)
  (createLead : Lead → M World R) (env : Env)
  (d : Dashboard) (w : World) (value : string) (more : list File) :
  handleCSVImport Papa_parse clock createLead env None (d, w, value)
  = (d, w, value)
  ∧ handleCSVImport Papa_parse clock createLead env (Some []) (d, w, value)
    = (d, w, value)
  ∧ handleCSVImport Papa_parse clock createLead env
      (Some (Unreadable :: more)) (d, w, value)
    = (setImportError "File reading failed" d, w, "")
  ∧ ∀ text, errors (Papa_parse text) ≠ [] →
      handleCSVImport Papa_parse clock createLead env
        (Some (Readable text :: more)) (d, w, value)
      = (setImportError "Invalid CSV format" d, w, "").
Proof.
  repeat split. intros text Herr.
  unfold handleCSVImport, try_catch, bind, setState, settled. cbn [fst snd].
  unfold parseCSV. cbn [readFileAsText].
  by destruct (errors (Papa_parse text)).
Qed.

Lemma handleCSVImport_rejected_file_writes_nothing_witness :
  handleCSVImport papa_ragged demo_clock (addDoc demo_env "919876543210")
    demo_env (Some [Readable csv_ragged]) (mount, demo_world, "leads.csv")
  = (setImportError "Invalid CSV format" mount, demo_world, "").
Proof.
  apply (handleCSVImport_rejected_file_writes_nothing papa_ragged demo_clock
           (addDoc demo_env "919876543210") demo_env mount demo_world
           "leads.csv" []).
  discriminate.
Defined.

(** When saving fails the dialog stays open with the message "Failed to save
    leads to database", the list on display is not refreshed, and the file
    input is cleared; the documents that were saved before the failure stay
    in the store. *)
Theorem handleCSVImport_failed_save {R}
  (Papa_parse : string → ParseResult) (clock : RowClock)
  (createLead : Lead → M World R) (env : Env)
  (d : Dashboard) (w : World) (value text : string) (more : list File)
  (parsed : list Lead) :
  parseCSV Papa_parse clock text = inr parsed →
  (importLeadsFromCSV createLead parsed w).1 ≠ inr tt →
  handleCSVImport Papa_parse clock createLead env
    (Some (Readable text :: more)) (d, w, value)
  = (setImportError "Failed to save leads to database" d,
     foldl (λ w lead, (createLead lead w).2) w parsed, "").
Proof.
  intros Hparse Hfail.
  unfold handleCSVImport, try_catch, bind, setState, settled, call.
  cbn [fst snd readFileAsText]. rewrite Hparse.
  destruct (importLeadsFromCSV_run createLead parsed w) as (r & E & Hr).
  rewrite E in Hfail |- *. cbn in Hfail.
  by destruct Hr as [->| ->].
Qed.

Lemma handleCSVImport_failed_save_witness :
  handleCSVImport papa_example demo_clock
    (λ _ : Lead, throw (A:=string) (JsError "permission-denied")) demo_env
    (Some [Readable csv_example]) (mount, demo_world, "leads.csv")
  = (setImportError "Failed to save leads to database" mount, demo_world, "").
Proof.
  apply (handleCSVImport_failed_save papa_example demo_clock
           (λ _ : Lead, throw (A:=string) (JsError "permission-denied"))
           demo_env mount demo_world "leads.csv" csv_example []
           (imap (rowToLead demo_clock) (data (papa_example csv_example)))).
  - reflexivity.
  - vm_compute. discriminate.
Defined.

(** ** Leads table: the filter options *)

Section Options.

Lemma distinct_from (seen xs : list string) :
  NoDup seen →
  NoDup (foldl (λ seen x, if bool_decide (x ∈ seen) then seen
                          else (seen ++ [x])%list) seen xs)
  ∧ ∀ x, x ∈ foldl (λ seen x, if bool_decide (x ∈ seen) then seen
                              else (seen ++ [x])%list) seen xs
         ↔ x ∈ seen ∨ x ∈ xs.
Proof.
  revert seen. induction xs as [|y xs IH]; intros seen Hseen; cbn [foldl].
  - split; [done|]. intros x. rewrite elem_of_nil. tauto.
  - case_bool_decide as Hy.
    + destruct (IH seen Hseen) as [Hnd Hin]. split; [done|].
      intros x. rewrite Hin, elem_of_cons. split; [tauto|].
      intros [?|[->|?]]; tauto.
    + assert (NoDup (seen ++ [y])) as Hseen'.
      { apply NoDup_app. split; [done|]. split; [|apply NoDup_singleton].
        intros x Hx ->%list_elem_of_singleton. done. }
      destruct (IH _ Hseen') as [Hnd Hin]. split; [done|].
      intros x. rewrite Hin, elem_of_app, list_elem_of_singleton, elem_of_cons.
      tauto.
Qed.

Lemma distinct_spec (xs : list string) :
  NoDup (distinct xs) ∧ ∀ x, x ∈ distinct xs ↔ x ∈ xs.
Proof.
  destruct (distinct_from [] xs (NoDup_nil_2)) as [Hnd Hin].
  split; [done|]. intros x. unfold distinct. rewrite Hin, elem_of_nil. tauto.
Qed.

Lemma options_spec {A} (field : A → string) (items : list A) :
  let options :=
    List.filter (λ s, negb (String.eqb s "")) (distinct (field <$> items)) in
  NoDup options
  ∧ ∀ s, s ∈ options ↔ s ≠ "" ∧ ∃ item, item ∈ items ∧ field item = s.
Proof.
  cbn zeta.
  rewrite (List_filter_bool_decide (λ s, s ≠ ""));
    [|intros s; rewrite eqb_bool_decide; by rewrite bool_decide_not].
  destruct (distinct_spec (field <$> items)) as [Hnd Hin]. split.
  - by apply NoDup_filter.
  - intros s. rewrite list_elem_of_filter, Hin, list_elem_of_fmap.
    split; intros [? (item & ? & ?)]; eauto.
Qed.

Lemma includes_empty (s : string) : includes s "" = true.
Proof. by destruct s. Qed.

End Options.

(** The status select offers each non-empty status that some lead has,
    once, and nothing else; the platform select does the same for the
    platforms. *)
Theorem filter_options_spec (leads : list Lead) :
  (NoDup (statuses leads)
   ∧ ∀ s, s ∈ statuses leads
          ↔ s ≠ "" ∧ ∃ lead, lead ∈ leads ∧ lead_status lead = s)
  ∧ (NoDup (platforms leads)
     ∧ ∀ p, p ∈ platforms leads
            ↔ p ≠ "" ∧ ∃ lead, lead ∈ leads ∧ platform lead = p).
Proof. split; [apply (options_spec lead_status) | apply (options_spec platform)]. Qed.

(** A status the select offers, or a platform it offers, is matched by some
    lead when the search box is empty and the other select is on "all": the
    filtered list is not empty. *)
Lemma offered_filter_is_never_empty (leads : list Lead) (option : string) :
  (option ∈ statuses leads → filteredLeads leads "" option "all" ≠ [])
  ∧ (option ∈ platforms leads → filteredLeads leads "" "all" option ≠ []).
Proof.
  split; intros Hin.
  - apply (options_spec lead_status) in Hin as (_ & lead & Hlead & <-).
    intros Hnil.
    assert (lead ∈ filteredLeads leads "" (lead_status lead) "all") as H.
    { apply list_elem_of_In, filter_In. split; [by apply list_elem_of_In|].
      unfold matchesFilters. cbn [toLowerCase].
      rewrite !includes_empty, !String.eqb_refl. cbn.
      destruct (String.eqb _ _); reflexivity. }
    rewrite Hnil in H. by apply elem_of_nil in H.
  - apply (options_spec platform) in Hin as (_ & lead & Hlead & <-).
    intros Hnil.
    assert (lead ∈ filteredLeads leads "" "all" (platform lead)) as H.
    { apply list_elem_of_In, filter_In. split; [by apply list_elem_of_In|].
      unfold matchesFilters. cbn [toLowerCase].
      rewrite !includes_empty, !String.eqb_refl. cbn.
      destruct (String.eqb _ _); reflexivity. }
    rewrite Hnil in H. by apply elem_of_nil in H.
Qed.

(** Choosing a status the select offers, or a platform it offers, with the
    search box empty and the other select on "all", never gives an empty
    first page: whatever order the sort puts the matching leads in, page 1
    of the table has rows.  (The selects do not reset the page number, so a
    later page can be empty.) *)
Theorem offered_filter_fills_first_page
  (leads shown : list Lead) (option : string) :
  (option ∈ statuses leads ∧ shown ≡ₚ filteredLeads leads "" option "all")
  ∨ (option ∈ platforms leads
     ∧ shown ≡ₚ filteredLeads leads "" "all" option) →
  paginatedLeads shown 1 ≠ [].
Proof.
  intros Hoffered.
  assert (shown ≠ []) as Hshown.
  { destruct (offered_filter_is_never_empty leads option) as [Hs Hp].
    destruct Hoffered as [[Hin Hperm]|[Hin Hperm]]; intros ->;
      apply Permutation_nil in Hperm;
      [by apply (Hs Hin) | by apply (Hp Hin)]. }
  change 1%Z with (Z.of_nat 0 + 1)%Z. unfold paginatedLeads.
  rewrite page_take_drop. by destruct shown.
Qed.

Lemma offered_filter_fills_first_page_witness :
  paginatedLeads [bob] 1 ≠ [].
Proof.
  apply (offered_filter_fills_first_page [jane; bob] [bob] "Meeting Done").
  left. split; [vm_compute; right; left | reflexivity].
Defined.

(** ** Leads table: the pagination bar *)

(** On a valid page the line "Showing a to b of n" counts the leads of the
    page, and the first lead of the page is lead number a of the list. *)
Theorem showing_line_matches_page (filtered : list Lead) (p : Z) :
  (1 ≤ p ≤ totalPages (length filtered))%Z →
  (showingTo p filtered - showingFrom p + 1)%Z
  = Z.of_nat (length (paginatedLeads filtered p))
  ∧ paginatedLeads filtered p !! 0%nat
    = filtered !! Z.to_nat (showingFrom p - 1).
Proof.
  intros [Hp1 HpT].
  destruct (totalPages_least (length filtered)) as [_ Hleast].
  specialize (Hleast (p - 1)%Z).
  assert (paginatedLeads filtered p
          = take 20 (drop (20 * Z.to_nat (p - 1)) filtered)) as ->.
  { replace p with (Z.of_nat (Z.to_nat (p - 1)) + 1)%Z at 1 by lia.
    apply page_take_drop. }
  unfold showingTo, showingFrom, itemsPerPage. split.
  - rewrite length_take, length_drop. lia.
  - rewrite lookup_take_lt by lia. rewrite lookup_drop. f_equal. lia.
Qed.

Lemma showing_line_matches_page_witness :
  (showingTo 3 (replicate 45 jane) - showingFrom 3 + 1)%Z = 5%Z.
Proof.
  destruct (showing_line_matches_page (replicate 45 jane) 3) as [Hcount _].
  - vm_compute. split; discriminate.
  - rewrite Hcount. reflexivity.
Defined.

(** The page number is not reset when a filter shrinks the list: on a page
    past the last one the table is empty, and "Next" leads back to the last
    page. *)
Theorem stale_page_is_empty (filtered : list Lead) (p : Z) :
  (totalPages (length filtered) < p)%Z →
  paginatedLeads filtered p = []
  ∧ nextPage (totalPages (length filtered)) p = totalPages (length filtered).
Proof.
  intros Hp.
  destruct (totalPages_least (length filtered)) as [Hup _].
  assert (0 ≤ totalPages (length filtered))%Z as HT0.
  { rewrite totalPages_eq. apply Z.div_pos; lia. }
  split; [|unfold nextPage; lia].
  assert (paginatedLeads filtered p
          = take 20 (drop (20 * Z.to_nat (p - 1)) filtered)) as ->.
  { replace p with (Z.of_nat (Z.to_nat (p - 1)) + 1)%Z at 1 by lia.
    apply page_take_drop. }
  rewrite drop_ge by lia. apply take_nil.
Qed.

Lemma stale_page_is_empty_witness :
  paginatedLeads [jane; bob] 2 = [].
Proof.
  apply (stale_page_is_empty [jane; bob] 2). vm_compute. reflexivity.
Defined.

(** ** Leads table: the follow-up popup *)

Lemma find_updated (leadId : string) (f : Lead → Lead) (leads : list Lead) :
  (∀ lead, id (f lead) = id lead) →
  List.find (id_is leadId)
    ((λ lead, if id_is leadId lead then f lead else lead) <$> leads)
  = f <$> List.find (id_is leadId) leads.
Proof.
  intros Hid. induction leads as [|lead leads IH]; [done|].
  cbn. destruct (id_is leadId lead) eqn:E.
  - unfold id_is in *. by rewrite Hid, E.
  - by rewrite E.
Qed.

(** What the handler of the dashboard stores for a lead is what the popup of
    the table shows when it is opened for that lead next: the date and time
    just scheduled if the lead is in the list, and two empty fields if it is
    not. *)
Theorem followUp_popup_shows_schedule
  (d : Dashboard) (leadId date time : string) (t : Table.t) :
  Table.followUpLeadId t ≠ Some leadId →
  let t' :=
    handleFollowUpClick (leads (handleFollowUpScheduled leadId date time d))
                        leadId t in
  Table.followUpLeadId t' = Some leadId
  ∧ ((∃ lead, lead ∈ leads d ∧ id lead = Some leadId) →
     Table.followUpDate t' = date ∧ Table.followUpTime t' = time)
  ∧ ((∀ lead, lead ∈ leads d → id lead ≠ Some leadId) →
     Table.followUpDate t' = "" ∧ Table.followUpTime t' = "").
Proof.
  intros Hclosed. cbn zeta. unfold handleFollowUpClick.
  rewrite bool_decide_eq_false_2 by done.
  unfold handleFollowUpScheduled. cbn [leads setLeads].
  rewrite find_updated by done.
  cbn [Table.followUpLeadId Table.followUpDate Table.followUpTime].
  split; [done|]. split.
  - intros (lead & Hin & Hid).
    destruct (List.find (id_is leadId) (leads d)) as [found|] eqn:E.
    + cbn. unfold or_else.
      split; [by destruct (String.eqb_spec date "")
             | by destruct (String.eqb_spec time "")].
    + apply find_none with (x := lead) in E; [|by apply list_elem_of_In].
      apply id_is_spec in Hid. congruence.
  - intros Hnone.
    destruct (List.find (id_is leadId) (leads d)) as [found|] eqn:E; [|done].
    apply find_some in E as [Hin Hid%id_is_spec].
    by destruct (Hnone found); [apply list_elem_of_In|].
Qed.

Lemma followUp_popup_shows_schedule_witness :
  let d := setLeads [lead_with_link] mount in
  let t' :=
    handleFollowUpClick
      (leads (handleFollowUpScheduled "doc-1" "2024-02-01" "10:30" d))
      "doc-1" Table_mount in
  Table.followUpDate t' = "2024-02-01" ∧ Table.followUpTime t' = "10:30".
Proof.
  intros d t'.
  destruct (followUp_popup_shows_schedule d "doc-1" "2024-02-01" "10:30"
              Table_mount) as (_ & Hshown & _); [discriminate|].
  apply Hshown. exists lead_with_link. split; [left | reflexivity].
Defined.

(** ** Leads table: what is read out of the comments *)

Section Comments.

#[local] Arguments String.append !_ _ /.

Lemma after_app (t r : string) : after t (t +:+ r) = Some r.
Proof.
  induction t as [|c t IH]; cbn; [by destruct r|].
  by rewrite Ascii.eqb_refl.
Qed.

Lemma after_Some (t s r : string) : after t s = Some r → s = t +:+ r.
Proof.
  revert s. induction t as [|c t IH]; intros s; cbn.
  - by destruct s; intros [= <-].
  - destruct s as [|d s]; [done|].
    destruct (Ascii.eqb_spec c d) as [->|]; [|done].
    intros E. by rewrite (IH _ E).
Qed.

Lemma after_other_head (c d : ascii) (t s : string) :
  c ≠ d → after (String c t) (String d s) = None.
Proof. intros Hne. cbn. by destruct (Ascii.eqb_spec c d). Qed.

Lemma extractScore_eq (comments : string) :
  extractScore comments
  = match after "Lead Score: " comments with
    | Some rest =>
        if String.eqb (take_digits rest) "" then
          match comments with
          | EmptyString => None
          | String _ comments' => extractScore comments'
          end
        else Some (parseInt (take_digits rest))
    | None =>
        match comments with
        | EmptyString => None
        | String _ comments' => extractScore comments'
        end
    end.
Proof.
  destruct comments as [|c comments]; [done|].
  cbn [extractScore]. destruct (after _ _) as [rest|]; [|done].
  by destruct (String.eqb _ _).
Qed.

Lemma extractLocation_eq (comments : string) :
  extractLocation comments
  = match after location_marker comments with
    | Some rest =>
        if String.eqb (take_line rest) "" then
          match comments with
          | EmptyString => "N/A"
          | String _ comments' => extractLocation comments'
          end
        else take_line rest
    | None =>
        match comments with
        | EmptyString => "N/A"
        | String _ comments' => extractLocation comments'
        end
    end.
Proof.
  destruct comments as [|c comments]; [done|].
  cbn [extractLocation]. destruct (after _ _) as [rest|]; [|done].
  by destruct (String.eqb _ _).
Qed.

Lemma take_digits_app (ds rest : string) :
  (∀ c, occurs c ds → is_digit c = true) → no_digit_ahead rest →
  take_digits (ds +:+ rest) = ds.
Proof.
  intros Hds Hrest. induction ds as [|c ds IH]; cbn.
  - destruct rest as [|c rest]; [done|]. cbn in *. by rewrite Hrest.
  - rewrite (Hds c) by (by left). f_equal. apply IH.
    intros c' Hc'. apply Hds. by right.
Qed.

Lemma take_line_app (line rest : string) :
  ¬ occurs (ascii_of_nat 10) line → line_ends rest →
  take_line (line +:+ rest) = line.
Proof.
  intros Hline Hrest. induction line as [|c line IH]; cbn -[ascii_of_nat Ascii.eqb].
  - destruct rest as [|c rest]; [done|]. cbn -[ascii_of_nat Ascii.eqb] in *. subst c. done.
  - cbn -[ascii_of_nat Ascii.eqb] in Hline. destruct (Ascii.eqb_spec c (ascii_of_nat 10)) as [->|_].
    + tauto.
    + f_equal. apply IH. tauto.
Qed.

Lemma take_line_no_feed (s : string) : ¬ occurs (ascii_of_nat 10) (take_line s).
Proof.
  induction s as [|c s IH]; cbn -[ascii_of_nat Ascii.eqb]; [tauto|].
  destruct (Ascii.eqb_spec c (ascii_of_nat 10)); cbn -[ascii_of_nat Ascii.eqb]; [tauto|].
  intros [E|H]; [congruence | tauto].
Qed.

Lemma take_line_prefix (s : string) : ∃ rest, s = take_line s +:+ rest.
Proof.
  induction s as [|c s [rest IH]]; cbn -[ascii_of_nat Ascii.eqb]; [by exists ""|].
  destruct (Ascii.eqb c (ascii_of_nat 10)); cbn -[ascii_of_nat Ascii.eqb]; [by eexists|].
  exists rest. by rewrite <- IH.
Qed.

Lemma of_N_not_empty (n : N) : of_N n ≠ "".
Proof.
  intros E. pose proof (NilEmpty.usu (N.to_uint n)) as H.
  fold (of_N n) in H. rewrite E in H. cbn in H. injection H as H.
  pose proof (DecimalN.Unsigned.of_to n) as Hn. rewrite <- H in Hn.
  cbn in Hn. subst n. discriminate.
Qed.

Lemma parseInt_of_N (n : N) : parseInt (of_N n) = n.
Proof.
  unfold parseInt, of_N. rewrite NilEmpty.usu.
  apply DecimalN.Unsigned.of_to.
Qed.

Lemma substring_of_tail (t s : string) (c : ascii) :
  substring_of t s → substring_of t (String c s).
Proof. intros (pre & post & ->). by exists (String c pre), post. Qed.

End Comments.

Section ReadingComments.

#[local] Arguments String.append !_ _ /.

(** A score written as "Lead Score: n" is read back as [n], wherever in the
    comments it stands, as long as no capital L comes before it and no digit
    follows the number. *)
Theorem extractScore_reads_back (pre rest : string) (n : N) :
  (n < 2 ^ 53)%N → ¬ occurs "L" pre → no_digit_ahead rest →
  extractScore (pre +:+ "Lead Score: " +:+ of_N n +:+ rest) = Some n.
Proof.
  intros _ Hpre Hrest. induction pre as [|c pre IH].
  - change ("" +:+ ?x) with x. rewrite extractScore_eq, after_app.
    rewrite take_digits_app; [|intros c; apply of_N_digits|done].
    destruct (String.eqb_spec (of_N n) "") as [E|_].
    + by apply of_N_not_empty in E.
    + by rewrite parseInt_of_N.
  - cbn in Hpre. rewrite extractScore_eq.
    change (String c pre +:+ ?x) with (String c (pre +:+ x)).
    change "Lead Score: " with (String "L" "ead Score: ") at 1.
    rewrite after_other_head by tauto. apply IH. tauto.
Qed.

Lemma extractScore_reads_back_witness :
  extractScore ("Fees: 2000 " +:+ "Lead Score: " +:+ of_N 85 +:+ " / 100")
  = Some 85%N.
Proof.
  apply (extractScore_reads_back "Fees: 2000 " " / 100" 85).
  - reflexivity.
  - vm_compute. intuition discriminate.
  - reflexivity.
Defined.

(** A location written after the marker is read back as the rest of its
    line, as long as no character that begins like the marker comes before
    it. *)
Theorem extractLocation_reads_back (pre line rest : string) :
  ¬ occurs (ascii_of_nat 240) pre →
  line ≠ "" → ¬ occurs (ascii_of_nat 10) line → line_ends rest →
  extractLocation (pre +:+ location_marker +:+ line +:+ rest) = line.
Proof.
  intros Hpre Hline Hfeed Hrest. induction pre as [|c pre IH].
  - change ("" +:+ ?x) with x. rewrite extractLocation_eq, after_app.
    rewrite take_line_app by done.
    by destruct (String.eqb_spec line "").
  - cbn -[ascii_of_nat] in Hpre. rewrite extractLocation_eq.
    change (String c pre +:+ ?x) with (String c (pre +:+ x)).
    assert (∃ t, location_marker = String (ascii_of_nat 240) t) as [t Ht]
      by (by eexists).
    rewrite Ht at 1. rewrite after_other_head; [apply IH; tauto|].
    intros E. apply Hpre. by left.
Qed.

Lemma extractLocation_reads_back_witness :
  extractLocation
    ("Name: Asha" +:+ newline +:+ location_marker +:+ "Pune" +:+ newline
     +:+ "Fees: 2000")
  = "Pune".
Proof.
  rewrite <- (append_assoc "Name: Asha" newline).
  apply (extractLocation_reads_back ("Name: Asha" +:+ newline) "Pune"
           (newline +:+ "Fees: 2000")).
  - vm_compute. intuition discriminate.
  - discriminate.
  - vm_compute. intuition discriminate.
  - reflexivity.
Defined.

(** What the location cell shows is "N/A" or a non-empty text without a line
    feed that stands in the comments right after the marker. *)
Theorem extractLocation_result (comments : string) :
  extractLocation comments = "N/A"
  ∨ (extractLocation comments ≠ ""
     ∧ ¬ occurs (ascii_of_nat 10) (extractLocation comments)
     ∧ substring_of (location_marker +:+ extractLocation comments) comments).
Proof.
  induction comments as [|c comments IH]; [by left|].
  rewrite extractLocation_eq.
  assert (extractLocation comments = "N/A"
          ∨ extractLocation comments ≠ ""
            ∧ ¬ occurs (ascii_of_nat 10) (extractLocation comments)
            ∧ substring_of (location_marker +:+ extractLocation comments)
                           (String c comments)) as Htail.
  { destruct IH as [?|(? & ? & ?)]; [by left|right].
    repeat split; [done..|]. by apply substring_of_tail. }
  destruct (after _ _) as [rest|] eqn:E; [|done].
  destruct (String.eqb_spec (take_line rest) "") as [|Hne]; [done|].
  right. split; [done|]. split; [apply take_line_no_feed|].
  apply after_Some in E. destruct (take_line_prefix rest) as [rest' Hrest].
  exists "", rest'. rewrite E. change ("" +:+ ?x) with x.
  by rewrite append_assoc, <- Hrest.
Qed.

End ReadingComments.

(** ** Leads table: colours and detail cards *)

Lemma toLowerCase_empty (s : string) : toLowerCase s = "" ↔ s = "".
Proof. by destruct s. Qed.

(** The colour of a status depends on the status only up to letter case. *)
Theorem getStatusColor_ignores_case (s t : string) :
  toLowerCase s = toLowerCase t →
  getStatusColor (Some s) = getStatusColor (Some t).
Proof.
  intros E. unfold getStatusColor. rewrite E.
  destruct (String.eqb_spec s "") as [->|Hs], (String.eqb_spec t "") as [->|Ht];
    try done.
  destruct Ht. apply toLowerCase_empty. by rewrite <- E.
Qed.

Lemma getStatusColor_ignores_case_witness :
  getStatusColor (Some "DEAL DONE") = getStatusColor (Some "Deal done").
Proof. apply getStatusColor_ignores_case. reflexivity. Defined.

Lemma find_no_match {A} (f : A → bool) (l : list A) :
  (∀ x, x ∈ l → f x = false) → List.find f l = None.
Proof.
  intros Hf. induction l as [|x l IH]; [done|].
  cbn. rewrite Hf by left. apply IH. intros y Hy. apply Hf. by right.
Qed.

Lemma comment_label_cases (i : nat) :
  or_else (comment_labels !! i) ("Field " +:+ of_N (N.of_nat (i + 1)))
    ∈ comment_labels
  ∨ ∃ rest, or_else (comment_labels !! i)
                    ("Field " +:+ of_N (N.of_nat (i + 1)))
            = String "F" rest.
Proof.
  do 8 (destruct i as [|i]; [left; cbn; set_solver|]).
  right. by eexists.
Qed.

(** The side panel looks the cards "Profession", "They are" and "Child's
    Age" up among labels that [parseComments] never gives: whatever the
    comments are and however they are split, the three cards show "N/A". *)
Theorem detail_cards_always_not_available
  (split : string → list string) (strip : string → string)
  (comments : string) :
  detailFromComments split strip "Profession" comments = "N/A"
  ∧ detailFromComments split strip "They are" comments = "N/A"
  ∧ detailFromComments split strip "Child's Age" comments = "N/A".
Proof.
  unfold detailFromComments.
  repeat split; rewrite find_no_match; try done;
    intros item (i & txt & -> & _)%elem_of_lookup_imap; cbn [fst];
    apply String.eqb_neq;
    destruct (comment_label_cases i) as [Hin|[rest ->]]; try done;
    intros E; rewrite E in Hin; vm_compute in Hin;
    repeat (apply elem_of_cons in Hin as [Hin|Hin]; [discriminate|]);
    by apply elem_of_nil in Hin.
Qed.

(** ** Sync and the natural key as a pair *)

Lemma generateLeadHash_eq_iff (a b : Lead) :
  (¬ occurs "_" (whatsapp_number_ a) ∧ ¬ occurs "_" (whatsapp_number_ b))
  ∨ (¬ occurs "_" (created_time a) ∧ ¬ occurs "_" (created_time b)) →
  generateLeadHash a = generateLeadHash b ↔ naturalKey a = naturalKey b.
Proof.
  intros Hfree. unfold generateLeadHash, naturalKey. split.
  - intros E. destruct Hfree as [[Ha Hb]|[Ha Hb]].
    + by destruct (split_first_sep _ _ _ _ _ Ha Hb E) as [-> ->].
    + by destruct (split_last_sep _ _ _ _ _ Ha Hb E) as [-> ->].
  - by intros [= -> ->].
Qed.

Lemma filter_iff_in {A} (P Q : A → Prop)
  `{∀ x, Decision (P x)} `{∀ x, Decision (Q x)} (l : list A) :
  (∀ x, x ∈ l → P x ↔ Q x) → filter P l = filter Q l.
Proof.
  intros HPQ. induction l as [|x l IH]; [done|].
  rewrite !filter_cons, IH by (intros y Hy; apply HPQ; by right).
  destruct (decide (P x)) as [HP|HP], (decide (Q x)) as [HQ|HQ]; try done.
  - destruct HQ. by apply (HPQ x); [left|].
  - destruct HP. by apply (HPQ x); [left|].
Qed.

(** Among leads without an underscore in the number, or without one in the
    creation time, having a stored hash and having a stored natural key are
    the same thing. *)
Lemma stored_hash_iff_stored_key (stored feed : list Lead) (i : Lead) :
  underscore_free whatsapp_number_ (stored ++ feed)
  ∨ underscore_free created_time (stored ++ feed) →
  i ∈ feed →
  generateLeadHash i ∈ generateLeadHash <$> stored
  ↔ naturalKey i ∈ naturalKey <$> stored.
Proof.
  intros Hfree Hi. rewrite !list_elem_of_fmap.
  split; intros (s & E & Hs); exists s; (split; [|done]);
    apply (generateLeadHash_eq_iff i s); try done;
    (destruct Hfree as [Hf|Hf]; [left|right];
     split; apply Hf; apply elem_of_app; auto).
Qed.

(** C1, as the specification words it, fails: the store holds the lead with
    number "1_2" and time "3", the feed brings the lead with number "1" and
    time "2_3".  The pair of the feed lead is not the pair of a stored lead,
    yet sync creates nothing, the two leads having the one hash "1_2_3". *)
Lemma sync_skips_lead_with_new_natural_key :
  ¬ ∃ (w' : World) (created : list LeadDoc),
      syncLeadsFromSheets collision_env collision_world = (inr tt, w')
      ∧ storedLeads w' "919876543210"
        = (storedLeads collision_world "919876543210" ++ created)%list
      ∧ created.*2
        = filter (λ i, naturalKey i
                       ∉ naturalKey
                         <$> (storedLeads collision_world "919876543210").*2)
                 [lead_time_with_underscore].
Proof.
  intros (w' & created & Hrun & Hstored & Hdata).
  destruct (sync_creates_exactly_new_leads collision_env demo_phone
              collision_world [lead_time_with_underscore]
              (λ _, eq_refl) eq_refl demo_phone_not_empty eq_refl)
    as (w'' & created' & Hrun' & Hstored' & Hdata' & _).
  rewrite Hrun in Hrun'. injection Hrun' as <-.
  change (digits_only demo_phone) with "919876543210" in Hstored', Hdata'.
  rewrite Hstored in Hstored'. apply app_inv_head in Hstored' as ->.
  rewrite Hdata' in Hdata. vm_compute in Hdata. discriminate.
Qed.

(** C1 (amended): with the user signed in, the feed answering [feed] and the
    store answering every request, and with no underscore in the
    [whatsapp_number_] of any stored or incoming lead (or none in the
    [created_time] of any), sync succeeds and the documents it creates in the
    user's collection are exactly the feed leads whose natural key, the pair
    of [whatsapp_number_] and [created_time], is not the natural key of a
    stored lead; each is a new document under a newly generated key, the
    documents already stored are kept as they were, and no other collection
    changes. *)
Theorem sync_creates_leads_with_new_natural_key
  (env : Env) (phone : string) (w : World) (feed : list Lead) :
  (∀ n, firestore_fault env n = None) →
  signed_in phone w → phone ≠ "" →
  axios_get env (API_URL (slice_last 10 (digits_only phone))) = inr feed →
  underscore_free whatsapp_number_
    ((storedLeads w (digits_only phone)).*2 ++ feed)
  ∨ underscore_free created_time
      ((storedLeads w (digits_only phone)).*2 ++ feed) →
  ∃ (w' : World) (created : list LeadDoc),
    syncLeadsFromSheets env w = (inr tt, w')
    ∧ storedLeads w' (digits_only phone)
      = (storedLeads w (digits_only phone) ++ created)%list
    ∧ created.*2
      = filter (λ i, naturalKey i
                     ∉ naturalKey <$> (storedLeads w (digits_only phone)).*2)
               feed
    ∧ created.*1 = autoId env <$> seq (generated w) (length created)
    ∧ generated w' = (generated w + length created)%nat
    ∧ ∀ k, k ≠ digits_only phone → leadsCol w' !! k = leadsCol w !! k.
Proof.
  intros Hok Hw Hne Hfeed Hfree.
  destruct (sync_creates_exactly_new_leads env phone w feed Hok Hw Hne Hfeed)
    as (w' & created & Hrun & Hstored & Hdata & Hkeys & Hgen & Hother).
  exists w', created. repeat split; try done.
  rewrite Hdata. apply filter_iff_in. intros i Hi.
  by rewrite (stored_hash_iff_stored_key _ feed).
Qed.

Lemma sync_creates_leads_with_new_natural_key_witness :
  ∃ (w' : World) (created : list LeadDoc),
    syncLeadsFromSheets demo_env demo_world = (inr tt, w')
    ∧ storedLeads w' "919876543210" = ("doc-1", jane) :: created
    ∧ created.*2
      = filter (λ i, naturalKey i ∉ naturalKey <$> [jane]) [jane; bob].
Proof.
  destruct (sync_creates_leads_with_new_natural_key demo_env demo_phone
              demo_world [jane; bob] demo_env_no_faults eq_refl
              demo_phone_not_empty eq_refl)
    as (w' & created & Hrun & Hstored & Hdata & _).
  - left. intros l Hl. change (l ∈ [jane; jane; bob]) in Hl.
    repeat (apply elem_of_cons in Hl as [->|Hl];
            [vm_compute; intuition discriminate|]).
    by apply elem_of_nil in Hl.
  - exists w', created. split; [exact Hrun|].
    split; [exact Hstored | exact Hdata].
Defined.

(** ** CSV import: a well-formed text that is turned away *)

(** C3, as the specification words it, fails: the one-column text with the
    header "name" and the rows "Jane" and "Bob" has a header and two
    well-formed rows, but PapaParse reports that it could not detect the
    delimiter, and [parseCSV] turns away a text with any error: it returns
    no leads. *)
Lemma parseCSV_rejects_single_column :
  csv_well_formed csv_single_column 2
  ∧ ¬ ∃ parsed : list Lead,
        parseCSV papa_single_column demo_clock csv_single_column = inr parsed
        ∧ length parsed = 2%nat.
Proof.
  split.
  - vm_compute. split; [reflexivity|]. repeat constructor.
  - intros (parsed & Hrun & _). vm_compute in Hrun. discriminate.
Qed.
